(** * Filmzimmer: the two-tier TTL cache of the TMDB client

    A shallow embedding of the cache layer of the TMDB API client
    (sections 2 to 4 of the client module: createCacheKey, isCacheValid,
    the memory tier, the localStorage tier, getFromCache, setInCache,
    clearAllCache, fetchFromApi and fetchWithCache), followed by the
    properties of the cache specification.

    JavaScript values are a tree type with integers for numbers (the
    numbers of this module are millisecond counts, HTTP statuses and TMDB
    ids).  Module state (the memory Map, localStorage, the timer queue of
    setTimeout, the clock read by Date.now) is threaded explicitly through
    a state-and-exception monad.  The browser built-ins the module calls
    (JSON.parse, JSON.stringify, numeric coercion, the quota decision of
    localStorage.setItem, URL serialisation) are the fields of a [Runtime]
    class; every theorem holds for every runtime. *)

From Stdlib Require Import Ascii String ZArith Lia.
From stdpp Require Import gmap strings list fin_maps pretty.

Local Open Scope Z_scope.
Set Warnings "-register-all".

(** ** JavaScript values *)

Inductive JsValue : Type :=
  | VUndefined
  | VNull
  | VBool (b : bool)
  | VNum (n : Z)
  | VStr (s : string)
  | VArr (items : list JsValue)
  | VObj (fields : list (string * JsValue)).

(** ToBoolean.  There is no NaN in the model, so 0 is the only falsy number. *)
Definition truthy (v : JsValue) : bool :=
  match v with
  | VUndefined | VNull => false
  | VBool b => b
  | VNum n => negb (n =? 0)
  | VStr s => negb (String.eqb s "")
  | VArr _ | VObj _ => true
  end.

(** [v !== null] *)
Definition not_null (v : JsValue) : bool :=
  match v with VNull => false | _ => true end.

Definition nullish (v : JsValue) : bool :=
  match v with VUndefined | VNull => true | _ => false end.

Fixpoint own_property (p : string) (fields : list (string * JsValue)) : JsValue :=
  match fields with
  | [] => VUndefined
  | (k, v) :: rest => if String.eqb k p then v else own_property p rest
  end.

(** The value of [v.p] when [v] is neither null nor undefined.  Only the
    names data, timestamp, ttl, status_message and language are read by the
    module, and none of them is a built-in property of a string, a number,
    a boolean or an array. *)
Definition prop (v : JsValue) (p : string) : JsValue :=
  match v with
  | VObj fields => own_property p fields
  | _ => VUndefined
  end.

Fixpoint join (sep : string) (l : list string) : string :=
  match l with
  | [] => ""
  | [s] => s
  | s :: rest => s +:+ sep +:+ join sep rest
  end.

(** ToString, as applied by template literals and Array.prototype.join. *)
Fixpoint to_string (v : JsValue) : string :=
  match v with
  | VUndefined => "undefined"
  | VNull => "null"
  | VBool true => "true"
  | VBool false => "false"
  | VNum n => pretty n
  | VStr s => s
  | VArr items =>
      join "," (map (fun x => if nullish x then "" else to_string x) items)
  | VObj _ => "[object Object]"
  end.

(** ** Exceptions, events and the module state *)

Inductive Exn : Type :=
  | TypeError (message : string)
  | SyntaxError
  | QuotaExceededError
  | NetworkError (reason : string)
  | Error (message : string).

Inductive Completion (A : Type) : Type :=
  | Normal (a : A)
  | Throw (e : Exn).
Arguments Normal {A} a.
Arguments Throw {A} e.

(** What the module does to the outside world, in order. *)
Inductive Event : Type :=
  | EGetItem (k : string)
  | ESetItem (k v : string)
  | ERemoveItem (k : string)
  | EWarn (about : string)
  | EFetch (url : string).

(** A callback queued by [setTimeout(..., 0)] in setInLocalStorage. *)
Record PendingWrite : Type := mkPending {
  pw_key : string;
  pw_data : JsValue;
  pw_ttl : JsValue
}.

Record World : Type := mkWorld {
  now : Z;                                (* Date.now() *)
  apiKey : string;
  memoryCache : gmap string JsValue;      (* const memoryCache = new Map() *)
  localStorage : gmap string string;
  timers : list PendingWrite;
  trace : list Event
}.

Definition with_memory (m : gmap string JsValue) (w : World) : World :=
  mkWorld (now w) (apiKey w) m (localStorage w) (timers w) (trace w).
Definition with_storage (s : gmap string string) (w : World) : World :=
  mkWorld (now w) (apiKey w) (memoryCache w) s (timers w) (trace w).
Definition with_timers (t : list PendingWrite) (w : World) : World :=
  mkWorld (now w) (apiKey w) (memoryCache w) (localStorage w) t (trace w).
Definition with_now (t : Z) (w : World) : World :=
  mkWorld t (apiKey w) (memoryCache w) (localStorage w) (timers w) (trace w).
Definition log (e : Event) (w : World) : World :=
  mkWorld (now w) (apiKey w) (memoryCache w) (localStorage w) (timers w)
          (trace w ++ [e]).

(** ** The browser built-ins *)

Class Runtime : Type := {
  (** JSON.parse; [None] is a thrown SyntaxError. *)
  JSON_parse : string -> option JsValue;
  JSON_stringify : JsValue -> string;
  (** ToNumber; [None] is NaN. *)
  ToNumber : JsValue -> option Z;
  ToNumber_num : forall n, ToNumber (VNum n) = Some n;
  (** Whether localStorage.setItem accepts the write (no QuotaExceededError). *)
  setItem_allowed : gmap string string -> string -> string -> bool;
  (** [new URL(base).toString()] after the listed searchParams.set calls. *)
  URL_toString : string -> list (string * string) -> string
}.

(** ** The state-and-exception monad *)

Definition M (A : Type) : Type := World -> Completion A * World.

Definition ret {A} (a : A) : M A := fun w => (Normal a, w).
Definition throw {A} (e : Exn) : M A := fun w => (Throw e, w).
Definition bind {A B} (m : M A) (k : A -> M B) : M B :=
  fun w =>
    match m w with
    | (Normal a, w') => k a w'
    | (Throw e, w') => (Throw e, w')
    end.
(** try { m } catch (error) { handler error }: the effects of [m] up to the
    throw are kept. *)
Definition try_catch {A} (m : M A) (handler : Exn -> M A) : M A :=
  fun w =>
    match m w with
    | (Normal a, w') => (Normal a, w')
    | (Throw e, w') => handler e w'
    end.

Notation "'let*' x := m 'in' k" := (bind m (fun x => k))
  (at level 10, x name, m at level 100, k at level 200).
Notation "m >> k" := (bind m (fun _ => k))
  (at level 61, left associativity).

Definition when (b : bool) (m : M unit) : M unit := if b then m else ret tt.

Definition result {A} (r : Completion A * World) : Completion A := fst r.
Definition after {A} (r : Completion A * World) : World := snd r.

(** ** Primitive effects *)

Definition Date_now : M Z := fun w => (Normal (now w), w).

(** memoryCache.get(key): undefined when the key is missing. *)
Definition memoryCache_get (key : string) : M JsValue :=
  fun w => (Normal (default VUndefined (memoryCache w !! key)), w).
Definition memoryCache_set (key : string) (entry : JsValue) : M unit :=
  fun w => (Normal tt, with_memory (<[key := entry]> (memoryCache w)) w).
Definition memoryCache_delete (key : string) : M unit :=
  fun w => (Normal tt, with_memory (delete key (memoryCache w)) w).
Definition memoryCache_clear : M unit :=
  fun w => (Normal tt, with_memory ∅ w).

(** localStorage.getItem(k): null ([None]) when the key is missing. *)
Definition localStorage_getItem (k : string) : M (option string) :=
  fun w => (Normal (localStorage w !! k), log (EGetItem k) w).
Definition localStorage_removeItem (k : string) : M unit :=
  fun w => (Normal tt, log (ERemoveItem k) (with_storage (delete k (localStorage w)) w)).
Definition localStorage_length : M nat :=
  fun w => (Normal (length (map_to_list (localStorage w))), w).
(** localStorage.key(i): the keys in the store's enumeration order. *)
Definition localStorage_key (i : nat) : M (option string) :=
  fun w => (Normal ((map_to_list (localStorage w)).*1 !! i), w).
Definition console_warn (about : string) : M unit :=
  fun w => (Normal tt, log (EWarn about) w).
Definition setTimeout (p : PendingWrite) : M unit :=
  fun w => (Normal tt, with_timers (timers w ++ [p]) w).

Section Client.
Context `{RT : Runtime}.

Definition localStorage_setItem (k v : string) : M unit :=
  fun w =>
    if setItem_allowed (localStorage w) k v
    then (Normal tt, log (ESetItem k v) (with_storage (<[k := v]> (localStorage w)) w))
    else (Throw QuotaExceededError, log (ESetItem k v) w).

Definition JSON_parse_or_throw (raw : string) : M JsValue :=
  match JSON_parse raw with
  | Some v => ret v
  | None => throw SyntaxError
  end.

(** [v.p]: a TypeError on null and undefined. *)
Definition get_prop (v : JsValue) (p : string) : M JsValue :=
  if nullish v
  then throw (TypeError ("Cannot read properties of " +:+ to_string v))
  else ret (prop v p).

(** [a - b] and [x < b] on numbers; NaN compares false. *)
Definition js_sub (a b : JsValue) : option Z :=
  match ToNumber a, ToNumber b with
  | Some x, Some y => Some (x - y)
  | _, _ => None
  end.
Definition js_lt (x : option Z) (b : JsValue) : bool :=
  match x, ToNumber b with
  | Some x, Some y => bool_decide (x < y)
  | _, _ => false
  end.

(** ** Section 1: configuration *)

Definition BASE_URL : string := "https://api.themoviedb.org/3".
Definition DEFAULT_LANGUAGE : string := "en-US".
Definition STORAGE_PREFIX : string := "filmzimmer:tmdb:".

(** ** Section 3: cache utilities *)

(** [(...parts) => parts.filter(Boolean).join(':')] *)
Definition createCacheKey (parts : list JsValue) : string :=
  join ":" (map to_string (List.filter truthy parts)).

(** The object literal [{ data, timestamp, ttl }]. *)
Definition mkEntry (data : JsValue) (timestamp : Z) (ttl : JsValue) : JsValue :=
  VObj [("data", data); ("timestamp", VNum timestamp); ("ttl", ttl)].

Definition isCacheValid (entry : JsValue) : M bool :=
  if negb (truthy entry) then ret false else
  let* timestamp := get_prop entry "timestamp" in
  if negb (truthy timestamp) then ret false else
  let* ttl := get_prop entry "ttl" in
  if negb (truthy ttl) then ret false else
  let* t := Date_now in
  ret (js_lt (js_sub (VNum t) timestamp) ttl).

Definition getFromMemoryCache (key : string) : M JsValue :=
  let* entry := memoryCache_get key in
  let* valid := (if truthy entry then isCacheValid entry else ret false) in
  if valid then get_prop entry "data"
  else
    when (truthy entry) (memoryCache_delete key) >>
    ret VNull.

Definition setInMemoryCache (key : string) (data ttl : JsValue) : M unit :=
  let* t := Date_now in
  memoryCache_set key (mkEntry data t ttl).

Definition is_empty_raw (raw : option string) : bool :=
  match raw with
  | None => true
  | Some s => String.eqb s ""
  end.

Definition getFromLocalStorage (key : string) : M JsValue :=
  try_catch
    (let* raw := localStorage_getItem (STORAGE_PREFIX +:+ key) in
     if is_empty_raw raw then ret VNull else
     let* entry := JSON_parse_or_throw (default "" raw) in
     let* valid := isCacheValid entry in
     if valid then get_prop entry "data"
     else
       localStorage_removeItem (STORAGE_PREFIX +:+ key) >>
       ret VNull)
    (fun error => console_warn key >> ret VNull).

(** The callback that setInLocalStorage hands to setTimeout. *)
Definition setInLocalStorage_callback (p : PendingWrite) : M unit :=
  try_catch
    (let* t := Date_now in
     let entry := mkEntry (pw_data p) t (pw_ttl p) in
     localStorage_setItem (STORAGE_PREFIX +:+ pw_key p) (JSON_stringify entry))
    (fun error => console_warn (pw_key p)).

Definition setInLocalStorage (key : string) (data ttl : JsValue) : M unit :=
  setTimeout (mkPending key data ttl).

Definition getFromCache (key : string) : M JsValue :=
  let* memoryData := getFromMemoryCache key in
  if not_null memoryData then ret memoryData else
  let* storageData := getFromLocalStorage key in
  if not_null storageData then
    let* raw := localStorage_getItem (STORAGE_PREFIX +:+ key) in
    when (negb (is_empty_raw raw))
      (let* entry := JSON_parse_or_throw (default "" raw) in
       let* ttl := get_prop entry "ttl" in
       setInMemoryCache key storageData ttl) >>
    ret storageData
  else ret VNull.

Definition setInCache (key : string) (data ttl : JsValue) : M unit :=
  setInMemoryCache key data ttl >>
  setInLocalStorage key data ttl.

(** The loop [for (let i = 0; i < localStorage.length; i++)] of clearAllCache,
    from index [i] with [n] rounds left.  The loop body only reads the
    store, so its length is the same at every test of the loop condition. *)
Fixpoint collect_keys (i : nat) (n : nat) (keysToRemove : list string) : M (list string) :=
  match n with
  | O => ret keysToRemove
  | S n' =>
      let* key := localStorage_key i in
      let keysToRemove' :=
        match key with
        | Some k =>
            if negb (String.eqb k "") && String.prefix STORAGE_PREFIX k
            then keysToRemove ++ [k] else keysToRemove
        | None => keysToRemove
        end in
      collect_keys (S i) n' keysToRemove'
  end.

Fixpoint forEach {A} (l : list A) (f : A -> M unit) : M unit :=
  match l with
  | [] => ret tt
  | x :: rest => f x >> forEach rest f
  end.

Definition clearAllCache (memoryOnly : bool) : M unit :=
  memoryCache_clear >>
  when (negb memoryOnly)
    (let* n := localStorage_length in
     let* keysToRemove := collect_keys 0 n [] in
     forEach keysToRemove localStorage_removeItem).

(** ** Section 4: HTTP utilities *)

(** URLSearchParams.set: the first pair named [k] takes the value, later
    ones go, and a new name is appended. *)
Fixpoint searchParams_set (k v : string) (l : list (string * string))
  : list (string * string) :=
  match l with
  | [] => [(k, v)]
  | (k', v') :: rest =>
      if String.eqb k' k
      then (k, v) :: List.filter (fun kv => negb (String.eqb (fst kv) k)) rest
      else (k', v') :: searchParams_set k v rest
  end.

(** [params] is the entry list of the params object. *)
Definition buildUrl (endpoint : string) (params : list (string * JsValue)) : M string :=
  fun w =>
    let sp := searchParams_set "api_key" (apiKey w) [] in
    let sp :=
      if negb (truthy (own_property "language" params))
      then searchParams_set "language" DEFAULT_LANGUAGE sp else sp in
    let sp :=
      fold_left
        (fun acc kv =>
           if negb (nullish (snd kv))
           then searchParams_set (fst kv) (to_string (snd kv)) acc else acc)
        params sp in
    (Normal (URL_toString (BASE_URL +:+ endpoint) sp), w).

(** What the network answers to [fetch(url)]: a transport failure, or a
    response with a status and a body text. *)
Record Response : Type := mkResponse {
  status : Z;
  body : string
}.

Inductive FetchAnswer : Type :=
  | Failed (e : Exn)
  | Answered (r : Response).

Definition Network : Type := string -> FetchAnswer.

Definition fetch (net : Network) (url : string) : M Response :=
  fun w =>
    match net url with
    | Failed e => (Throw e, log (EFetch url) w)
    | Answered r => (Normal r, log (EFetch url) w)
    end.

(** response.ok: the status is in the range 200 to 299. *)
Definition response_ok (r : Response) : bool :=
  (200 <=? status r) && (status r <=? 299).

Definition response_json (r : Response) : M JsValue :=
  JSON_parse_or_throw (body r).

Definition fetchFromApi (net : Network) (url : string) : M JsValue :=
  let* response := fetch net url in
  if negb (response_ok response) then
    let* errorBody := try_catch (response_json response) (fun _ => ret (VObj [])) in
    let* status_message := get_prop errorBody "status_message" in
    let message :=
      if truthy status_message then status_message
      else VStr ("HTTP " +:+ to_string (VNum (status response))) in
    throw (Error ("[TMDB API Error] " +:+ to_string message))
  else response_json response.

(** The part of fetchWithCache after the cache miss: it runs once the
    network has answered. *)
Definition fetchWithCache_load (net : Network) (cacheKey : string) (url : string)
    (ttl : JsValue) : M JsValue :=
  let* data := fetchFromApi net url in
  setInCache cacheKey data ttl >>
  ret data.

(** fetchWithCache when nothing else runs while the request is in flight;
    the general case is [fetchWithCache_await] below. *)
Definition fetchWithCache (net : Network) (cacheKey endpoint : string)
    (params : list (string * JsValue)) (ttl : JsValue) : M JsValue :=
  let* cachedData := getFromCache cacheKey in
  if not_null cachedData then ret cachedData else
  let* url := buildUrl endpoint params in
  fetchWithCache_load net cacheKey url ttl.

(** ** The event loop *)

(** The oldest queued timer callback runs. *)
Definition run_timer (w : World) : World :=
  match timers w with
  | [] => w
  | p :: rest => after (setInLocalStorage_callback p (with_timers rest w))
  end.

Fixpoint run_timers (n : nat) (w : World) : World :=
  match n with
  | O => w
  | S n' => run_timers n' (run_timer w)
  end.

(** The clock moves on by [d] milliseconds. *)
Definition advance (d : Z) (w : World) : World := with_now (now w + d) w.

(** ** The suspension at the await

    fetchWithCache is an async function: at [await fetchFromApi(url)] it
    gives up control until the network has answered.  The request itself
    is issued at once; while it is in flight the clock moves on, queued
    setTimeout callbacks fire, and other code calls the cache. *)

(** One thing that runs while a call is suspended: a clock tick, the
    oldest queued timer callback, or a synchronous step of another caller
    (a lookup, a write, a clear, the request of an overlapping
    fetchWithCache; the continuation of an overlapping fetchWithCache that
    succeeded is a write). *)
Inductive Activity : Type :=
  | Tick (d : Z)
  | Timer
  | Lookup (key : string)
  | Store (key : string) (data ttl : JsValue)
  | Clear (memoryOnly : bool)
  | Request (url : string).

Definition perform (a : Activity) (w : World) : World :=
  match a with
  | Tick d => advance d w
  | Timer => run_timer w
  | Lookup key => after (getFromCache key w)
  | Store key data ttl => after (setInCache key data ttl w)
  | Clear memoryOnly => after (clearAllCache memoryOnly w)
  | Request url => log (EFetch url) w
  end.

(** The activities [during] run one after the other. *)
Definition elapse (during : list Activity) (w : World) : World :=
  fold_left (fun w a => perform a w) during w.

(** [await fetchFromApi(url)]: fetch(url) is called before the first
    suspension; nothing fetchFromApi does after it touches the state, so
    everything that runs during its awaits is gathered in [during], after
    which the caller resumes with the outcome. *)
Definition await_fetchFromApi (net : Network) (url : string)
    (during : list Activity) : M JsValue :=
  fun w => let '(r, w1) := fetchFromApi net url w in (r, elapse during w1).

(** fetchWithCache with the suspension written out: [during] is what runs
    between the request and the continuation.  [fetchWithCache] above is
    the run in which nothing does. *)
Definition fetchWithCache_await (net : Network) (cacheKey endpoint : string)
    (params : list (string * JsValue)) (ttl : JsValue) (during : list Activity)
    : M JsValue :=
  let* cachedData := getFromCache cacheKey in
  if not_null cachedData then ret cachedData else
  let* url := buildUrl endpoint params in
  let* data := await_fetchFromApi net url during in
  setInCache cacheKey data ttl >>
  ret data.

End Client.

(** ** Section 7: two of the movie methods *)

Section Methods.
Context `{RT : Runtime}.

(** CACHE_TTL.MOVIE_DETAILS and CACHE_TTL.CREDITS: 24 hours each. *)
Definition CACHE_TTL_MOVIE_DETAILS : Z := 24 * 60 * 60 * 1000.
Definition CACHE_TTL_CREDITS : Z := 24 * 60 * 60 * 1000.

(** [options] defaults to the empty object when it is undefined. *)
Definition getMovieDetails (net : Network) (movieId options : JsValue) : M JsValue :=
  let options := match options with VUndefined => VObj [] | _ => options end in
  let* appendToResponse := get_prop options "appendToResponse" in
  let append :=
    if truthy appendToResponse then appendToResponse
    else VStr "credits,videos,images,recommendations,similar" in
  let cacheKey := createCacheKey [VStr "movie"; movieId; append] in
  fetchWithCache net cacheKey ("/movie/" +:+ to_string movieId)
    [("append_to_response", append)] (VNum CACHE_TTL_MOVIE_DETAILS).

Definition getMovieCredits (net : Network) (movieId : JsValue) : M JsValue :=
  let cacheKey := createCacheKey [VStr "movie"; movieId; VStr "credits"] in
  fetchWithCache net cacheKey ("/movie/" +:+ to_string movieId +:+ "/credits")
    [] (VNum CACHE_TTL_CREDITS).

End Methods.

(** ** The favourites manager (storage-manager.js)

    load, save, normalizeItem, getFavourites, isFavourite, addFavourite and
    removeFavourite of the journal, which keep one JSON array under their
    own localStorage key.  The properties they read (id, title, name,
    poster_path, overview, release_date, first_air_date, vote_average,
    note) are not built-in properties of any value either. *)

Module Favourites.
Section Manager.
Context `{RT : Runtime}.

Definition KEY : string := "filmzimmer:favourites".

Definition Array_isArray (v : JsValue) : bool :=
  match v with VArr _ => true | _ => false end.

(** The elements of an array value. *)
Definition elements_of (v : JsValue) : list JsValue :=
  match v with VArr items => items | _ => [] end.

(** [a === b].  Arrays and objects compare by identity; every comparison
    of this module has a freshly parsed value on one side, so two of them
    are never the same object. *)
Definition strict_eq (a b : JsValue) : bool :=
  match a, b with
  | VUndefined, VUndefined => true
  | VNull, VNull => true
  | VBool x, VBool y => Bool.eqb x y
  | VNum x, VNum y => x =? y
  | VStr x, VStr y => String.eqb x y
  | _, _ => false
  end.

(** [a || b] and [a ?? b] on values. *)
Definition js_or (a b : JsValue) : JsValue := if truthy a then a else b.
Definition js_coalesce (a b : JsValue) : JsValue := if nullish a then b else a.

Definition load : M JsValue :=
  try_catch
    (let* raw := localStorage_getItem KEY in
     let* parsed :=
       (if negb (is_empty_raw raw) then JSON_parse_or_throw (default "" raw)
        else ret (VArr [])) in
     ret (if Array_isArray parsed then parsed else VArr []))
    (fun _ => ret (VArr [])).

Definition save (lst : JsValue) : M unit :=
  localStorage_setItem KEY (JSON_stringify lst).

Definition normalizeItem (item : JsValue) : M JsValue :=
  let* id := get_prop item "id" in
  let* title := get_prop item "title" in
  let* name := get_prop item "name" in
  let* poster_path := get_prop item "poster_path" in
  let* overview := get_prop item "overview" in
  let* release_date := get_prop item "release_date" in
  let* first_air_date := get_prop item "first_air_date" in
  let* vote_average := get_prop item "vote_average" in
  let* note := get_prop item "note" in
  ret (VObj [("id", id);
             ("title", js_or (js_or title name) (VStr ""));
             ("poster_path", js_or poster_path VNull);
             ("overview", js_or overview (VStr ""));
             ("release_date", js_or (js_or release_date first_air_date) (VStr ""));
             ("vote_average", js_coalesce vote_average VNull);
             ("note", js_or note (VStr ""))]).

Definition getFavourites : M JsValue := load.

(** [list.some((m) => m.id === id)] *)
Fixpoint some_has_id (id : JsValue) (lst : list JsValue) : M bool :=
  match lst with
  | [] => ret false
  | m :: rest =>
      let* mid := get_prop m "id" in
      if strict_eq mid id then ret true else some_has_id id rest
  end.

(** [list.filter((m) => m.id !== id)] *)
Fixpoint filter_not_id (id : JsValue) (lst : list JsValue) : M (list JsValue) :=
  match lst with
  | [] => ret []
  | m :: rest =>
      let* mid := get_prop m "id" in
      let* rest' := filter_not_id id rest in
      ret (if strict_eq mid id then rest' else m :: rest')
  end.

Definition isFavourite (id : JsValue) : M bool :=
  let* lst := load in
  some_has_id id (elements_of lst).

Definition addFavourite (item : JsValue) : M JsValue :=
  if negb (truthy item) then load else
  let* item_id := get_prop item "id" in
  if nullish item_id then load else
  let* lst := load in
  let* present := some_has_id item_id (elements_of lst) in
  if present then ret lst else
  let* minimal := normalizeItem item in
  let next := VArr (minimal :: elements_of lst) in
  save next >>
  ret next.

Definition removeFavourite (id : JsValue) : M JsValue :=
  let* lst := load in
  let* kept := filter_not_id id (elements_of lst) in
  let next := VArr kept in
  save next >>
  ret next.

End Manager.
End Favourites.

(** ** A reference runtime

    An executable instance of [Runtime], used to run the model on concrete
    worlds: a compact JSON printer, a recursive-descent parser for JSON
    with integer numbers, a character quota for localStorage and a plain
    query-string serialiser. *)

Module Reference.

Definition dquote : ascii := ascii_of_nat 34.
Definition backslash : ascii := ascii_of_nat 92.

Fixpoint escape (s : string) : string :=
  match s with
  | EmptyString => EmptyString
  | String c rest =>
      if Ascii.eqb c dquote || Ascii.eqb c backslash
      then String backslash (String c (escape rest))
      else String c (escape rest)
  end.

Definition quoted (s : string) : string :=
  String dquote (escape s +:+ String dquote EmptyString).

(** JSON.stringify: a property whose value is undefined is left out of an
    object, and undefined prints as null inside an array. *)
Fixpoint stringify (v : JsValue) : string :=
  match v with
  | VUndefined | VNull => "null"
  | VBool true => "true"
  | VBool false => "false"
  | VNum n => pretty n
  | VStr s => quoted s
  | VArr items => "[" +:+ join "," (map stringify items) +:+ "]"
  | VObj fields =>
      "{" +:+
      join ","
        ((fix members (fs : list (string * JsValue)) : list string :=
            match fs with
            | [] => []
            | (k, VUndefined) :: rest => members rest
            | (k, x) :: rest => (quoted k +:+ ":" +:+ stringify x) :: members rest
            end) fields) +:+
      "}"
  end.

Definition is_ws (c : ascii) : bool :=
  Ascii.eqb c " " || (nat_of_ascii c =? 9)%nat || (nat_of_ascii c =? 10)%nat
  || (nat_of_ascii c =? 13)%nat.

Fixpoint skip_ws (cs : list ascii) : list ascii :=
  match cs with
  | c :: rest => if is_ws c then skip_ws rest else cs
  | [] => []
  end.

Definition digit (c : ascii) : option Z :=
  let n := nat_of_ascii c in
  if (48 <=? n)%nat && (n <=? 57)%nat then Some (Z.of_nat (n - 48)) else None.

Fixpoint digits (acc : Z) (cs : list ascii) : Z * list ascii :=
  match cs with
  | c :: rest =>
      match digit c with
      | Some d => digits (10 * acc + d) rest
      | None => (acc, cs)
      end
  | [] => (acc, [])
  end.

(** An integer literal: an optional minus sign and at least one digit. *)
Definition number (cs : list ascii) : option (Z * list ascii) :=
  match cs with
  | c :: rest =>
      if Ascii.eqb c "-" then
        match rest with
        | d :: _ =>
            match digit d with
            | Some _ => let '(n, r) := digits 0 rest in Some (- n, r)
            | None => None
            end
        | [] => None
        end
      else
        match digit c with
        | Some _ => Some (digits 0 cs)
        | None => None
        end
  | [] => None
  end.

(** The characters of a string literal after its opening quote. *)
Fixpoint string_body (cs : list ascii) : option (string * list ascii) :=
  match cs with
  | [] => None
  | c :: rest =>
      if Ascii.eqb c dquote then Some (EmptyString, rest)
      else if Ascii.eqb c backslash then
        match rest with
        | e :: rest' =>
            match string_body rest' with
            | Some (s, r) => Some (String e s, r)
            | None => None
            end
        | [] => None
        end
      else
        match string_body rest with
        | Some (s, r) => Some (String c s, r)
        | None => None
        end
  end.

Definition keyword (k : string) (cs : list ascii) : option (list ascii) :=
  let kl := list_ascii_of_string k in
  if bool_decide (take (length kl) cs = kl) then Some (drop (length kl) cs) else None.

Fixpoint value (fuel : nat) (cs : list ascii) : option (JsValue * list ascii) :=
  match fuel with
  | O => None
  | S fuel' =>
      match skip_ws cs with
      | [] => None
      | c :: rest =>
          if Ascii.eqb c dquote then
            match string_body rest with
            | Some (s, r) => Some (VStr s, r)
            | None => None
            end
          else if Ascii.eqb c "[" then
            match skip_ws rest with
            | c' :: r' =>
                if Ascii.eqb c' "]" then Some (VArr [], r')
                else match elements fuel' rest with
                     | Some (l, r) => Some (VArr l, r)
                     | None => None
                     end
            | [] => None
            end
          else if Ascii.eqb c "{" then
            match skip_ws rest with
            | c' :: r' =>
                if Ascii.eqb c' "}" then Some (VObj [], r')
                else match members fuel' rest with
                     | Some (l, r) => Some (VObj l, r)
                     | None => None
                     end
            | [] => None
            end
          else if Ascii.eqb c "n" then
            match keyword "null" (c :: rest) with
            | Some r => Some (VNull, r) | None => None end
          else if Ascii.eqb c "t" then
            match keyword "true" (c :: rest) with
            | Some r => Some (VBool true, r) | None => None end
          else if Ascii.eqb c "f" then
            match keyword "false" (c :: rest) with
            | Some r => Some (VBool false, r) | None => None end
          else
            match number (c :: rest) with
            | Some (n, r) => Some (VNum n, r)
            | None => None
            end
      end
  end
with elements (fuel : nat) (cs : list ascii) : option (list JsValue * list ascii) :=
  match fuel with
  | O => None
  | S fuel' =>
      match value fuel' cs with
      | Some (v, r) =>
          match skip_ws r with
          | c :: r' =>
              if Ascii.eqb c "," then
                match elements fuel' r' with
                | Some (l, r'') => Some (v :: l, r'')
                | None => None
                end
              else if Ascii.eqb c "]" then Some ([v], r')
              else None
          | [] => None
          end
      | None => None
      end
  end
with members (fuel : nat) (cs : list ascii) : option (list (string * JsValue) * list ascii) :=
  match fuel with
  | O => None
  | S fuel' =>
      match skip_ws cs with
      | q :: r0 =>
          if Ascii.eqb q dquote then
            match string_body r0 with
            | Some (k, r1) =>
                match skip_ws r1 with
                | colon :: r2 =>
                    if Ascii.eqb colon ":" then
                      match value fuel' r2 with
                      | Some (v, r3) =>
                          match skip_ws r3 with
                          | c :: r4 =>
                              if Ascii.eqb c "," then
                                match members fuel' r4 with
                                | Some (l, r5) => Some ((k, v) :: l, r5)
                                | None => None
                                end
                              else if Ascii.eqb c "}" then Some ([(k, v)], r4)
                              else None
                          | [] => None
                          end
                      | None => None
                      end
                    else None
                | [] => None
                end
            | None => None
            end
          else None
      | [] => None
      end
  end.

Definition parse (raw : string) : option JsValue :=
  let cs := list_ascii_of_string raw in
  match value (S (length cs)) cs with
  | Some (v, r) => match skip_ws r with [] => Some v | _ => None end
  | None => None
  end.

(** ToNumber on the values that have an integer reading. *)
Definition to_number (v : JsValue) : option Z :=
  match v with
  | VNum n => Some n
  | VNull => Some 0
  | VBool b => Some (if b then 1 else 0)
  | VStr s =>
      match skip_ws (list_ascii_of_string s) with
      | [] => Some 0
      | cs => match number cs with
              | Some (n, r) => match skip_ws r with [] => Some n | _ => None end
              | None => None
              end
      end
  | _ => None
  end.

Definition storage_size (m : gmap string string) : N :=
  map_fold
    (fun k v acc => N.of_nat (String.length k) + N.of_nat (String.length v) + acc)%N
    0%N m.

(** setItem is refused when the store would outgrow [quota] characters. *)
Definition within_quota (quota : N) (m : gmap string string) (k v : string) : bool :=
  (storage_size (<[k := v]> m) <=? quota)%N.

Definition query_string (base : string) (sp : list (string * string)) : string :=
  base +:+ "?" +:+ join "&" (map (fun kv => fst kv +:+ "=" +:+ snd kv) sp).

Definition runtime (quota : N) : Runtime :=
  {| JSON_parse := parse;
     JSON_stringify := stringify;
     ToNumber := to_number;
     ToNumber_num := fun n => eq_refl;
     setItem_allowed := within_quota quota;
     URL_toString := query_string |}.

(** Five million characters, the usual browser allowance. *)
Definition browser : Runtime := runtime 5000000%N.
(** A store that is already full. *)
Definition full : Runtime := runtime 0%N.

Definition start (t : Z) : World := mkWorld t "k" ∅ ∅ [] [].

End Reference.

(** ** Readings of the code

    Pure functions that say what the monadic code computes, the event
    bookkeeping, and the scenarios the properties speak about. *)

Section Readings.
Context `{RT : Runtime}.

(** [isCacheValid(entry)] at clock reading [t], as a pure function. *)
Definition entry_valid (t : Z) (entry : JsValue) : bool :=
  truthy entry
  && truthy (prop entry "timestamp")
  && truthy (prop entry "ttl")
  && js_lt (js_sub (VNum t) (prop entry "timestamp")) (prop entry "ttl").

Definition memory_entry (key : string) (w : World) : JsValue :=
  default VUndefined (memoryCache w !! key).

Definition storage_key (key : string) : string := STORAGE_PREFIX +:+ key.

(** The write of setInMemoryCache at the current clock reading. *)
Definition promote (key : string) (data ttl : JsValue) (w : World) : World :=
  with_memory (<[key := mkEntry data (now w) ttl]> (memoryCache w)) w.

(** The memory tier after getFromMemoryCache: a stale or malformed entry
    is gone. *)
Definition evict (key : string) (w : World) : World :=
  if truthy (memory_entry key w) && negb (entry_valid (now w) (memory_entry key w))
  then with_memory (delete key (memoryCache w)) w
  else w.

Definition memory_hit (key : string) (w : World) : bool :=
  entry_valid (now w) (memory_entry key w)
  && not_null (prop (memory_entry key w) "data").

(** The value getFromLocalStorage returns, as a function of the clock and
    the store. *)
Definition persistent_answer (key : string) (t : Z) (st : gmap string string)
  : JsValue :=
  match st !! storage_key key with
  | None => VNull
  | Some raw =>
      if String.eqb raw "" then VNull else
      match JSON_parse raw with
      | None => VNull
      | Some entry => if entry_valid t entry then prop entry "data" else VNull
      end
  end.

(** The value getFromCache returns, as a function of the clock and the two
    tiers. *)
Definition cache_answer (key : string) (t : Z) (mem : gmap string JsValue)
    (st : gmap string string) : JsValue :=
  let m := default VUndefined (mem !! key) in
  if entry_valid t m && not_null (prop m "data") then prop m "data"
  else persistent_answer key t st.

Definition is_getItem (e : Event) : bool :=
  match e with EGetItem _ => true | _ => false end.
Definition is_setItem (e : Event) : bool :=
  match e with ESetItem _ _ => true | _ => false end.
Definition is_fetch (e : Event) : bool :=
  match e with EFetch _ => true | _ => false end.

(** The events logged between world [w] and the later world [w']. *)
Definition events_since (w w' : World) : list Event :=
  drop (length (trace w)) (trace w').

(** The number of localStorage.getItem calls among [evs]. *)
Definition reads (evs : list Event) : nat := length (List.filter is_getItem evs).

(** The events of one getFromCache call. *)
Definition lookup_events (key : string) (w : World) : list Event :=
  let k := storage_key key in
  if memory_hit key w then []
  else
    match localStorage w !! k with
    | None => [EGetItem k]
    | Some raw =>
        if String.eqb raw "" then [EGetItem k] else
        match JSON_parse raw with
        | None => [EGetItem k; EWarn key]
        | Some entry =>
            if entry_valid (now w) entry then
              if not_null (prop entry "data") then [EGetItem k; EGetItem k]
              else [EGetItem k]
            else [EGetItem k; ERemoveItem k]
        end
    end.

(** The test of the loop body: [key && key.startsWith(STORAGE_PREFIX)]. *)
Definition in_namespace (k : string) : bool :=
  negb (String.eqb k "") && String.prefix STORAGE_PREFIX k.

Definition storage_keys (w : World) : list string := (map_to_list (localStorage w)).*1.

Fixpoint removed (ks : list string) (w : World) : World :=
  match ks with
  | [] => w
  | k :: rest => removed rest (after (localStorage_removeItem k w))
  end.

(** The URL buildUrl returns. *)
Definition built_url (endpoint : string) (params : list (string * JsValue))
    (w : World) : string :=
  match result (buildUrl endpoint params w) with
  | Normal url => url
  | Throw _ => ""
  end.

(** How a fetchFromApi call settles, as a function of the network's answer. *)
Definition fetch_outcome (net : Network) (url : string) : Completion JsValue :=
  match net url with
  | Failed e => Throw e
  | Answered r =>
      if negb (response_ok r) then
        let errorBody := default (VObj []) (JSON_parse (body r)) in
        if nullish errorBody
        then Throw (TypeError ("Cannot read properties of " +:+ to_string errorBody))
        else
          let status_message := prop errorBody "status_message" in
          Throw (Error ("[TMDB API Error] " +:+
                        to_string (if truthy status_message then status_message
                                   else VStr ("HTTP " +:+ to_string (VNum (status r))))))
      else
        match JSON_parse (body r) with
        | Some data => Normal data
        | None => Throw SyntaxError
        end
  end.

(** The renderings of the components createCacheKey keeps, in order. *)
Definition kept (parts : list JsValue) : list string :=
  map to_string (List.filter truthy parts).

Fixpoint colon_free (s : string) : bool :=
  match s with
  | EmptyString => true
  | String c rest => negb (Ascii.eqb c ":") && colon_free rest
  end.

(** A segment that can be told apart inside a key: not empty and without
    the delimiter. *)
Definition plain (s : string) : bool := colon_free s && negb (String.eqb s "").

Definition delimiter_free (parts : list JsValue) : bool := forallb plain (kept parts).

(** setInCache at the current time, the deferred write [d1] ms later, and
    the world another [d2] ms after that. *)
Definition written_then_aged (key : string) (data : JsValue) (ttl d1 d2 : Z)
    (w : World) : World :=
  advance d2 (run_timer (advance d1 (after (setInCache key data (VNum ttl) w)))).

End Readings.

(** ** Readings of buildUrl and of the favourites manager *)

Section MoreReadings.
Context `{RT : Runtime}.

(** The body of the forEach over Object.entries(params) in buildUrl. *)
Definition set_param (acc : list (string * string)) (kv : string * JsValue)
  : list (string * string) :=
  if negb (nullish (snd kv))
  then searchParams_set (fst kv) (to_string (snd kv)) acc else acc.

(** The search parameters of the URL buildUrl serialises. *)
Definition url_query (params : list (string * JsValue)) (w : World)
  : list (string * string) :=
  let sp := searchParams_set "api_key" (apiKey w) [] in
  let sp :=
    if negb (truthy (own_property "language" params))
    then searchParams_set "language" DEFAULT_LANGUAGE sp else sp in
  fold_left set_param params sp.

(** The array load returns, read off the store. *)
Definition stored_favourites (st : gmap string string) : list JsValue :=
  match st !! Favourites.KEY with
  | None => []
  | Some raw =>
      if String.eqb raw "" then [] else
      match JSON_parse raw with
      | Some (VArr items) => items
      | _ => []
      end
  end.

(** How [list.some((m) => m.id === id)] completes. *)
Fixpoint some_id (id : JsValue) (l : list JsValue) : Completion bool :=
  match l with
  | [] => Normal false
  | m :: rest =>
      if nullish m then Throw (TypeError ("Cannot read properties of " +:+ to_string m))
      else if Favourites.strict_eq (prop m "id") id then Normal true
      else some_id id rest
  end.

(** How [list.filter((m) => m.id !== id)] completes. *)
Fixpoint filter_id (id : JsValue) (l : list JsValue) : Completion (list JsValue) :=
  match l with
  | [] => Normal []
  | m :: rest =>
      if nullish m then Throw (TypeError ("Cannot read properties of " +:+ to_string m))
      else
        match filter_id id rest with
        | Normal rest' => Normal (if Favourites.strict_eq (prop m "id") id then rest' else m :: rest')
        | Throw e => Throw e
        end
  end.

(** The record normalizeItem builds. *)
Definition normalized (item : JsValue) : JsValue :=
  VObj [("id", prop item "id");
        ("title", Favourites.js_or (Favourites.js_or (prop item "title") (prop item "name")) (VStr ""));
        ("poster_path", Favourites.js_or (prop item "poster_path") VNull);
        ("overview", Favourites.js_or (prop item "overview") (VStr ""));
        ("release_date",
         Favourites.js_or (Favourites.js_or (prop item "release_date") (prop item "first_air_date")) (VStr ""));
        ("vote_average", Favourites.js_coalesce (prop item "vote_average") VNull);
        ("note", Favourites.js_or (prop item "note") (VStr ""))].

(** The list with the new item in front. *)
Definition with_favourite (item : JsValue) (st : gmap string string) : JsValue :=
  VArr (normalized item :: stored_favourites st).

(** ** Readings of a suspended fetchWithCache *)

(** The state in which fetchWithCache is suspended after a miss: the
    lookup has run and the request has been issued. *)
Definition suspended (key url : string) (w : World) : World :=
  log (EFetch url) (after (getFromCache key w)).

(** The activity is a write of [key] by another caller. *)
Definition stores (key : string) (a : Activity) : bool :=
  match a with
  | Store k _ _ => String.eqb k key
  | _ => false
  end.

(** Nobody stores [key] during the activities. *)
Definition leaves_alone (key : string) (during : list Activity) : bool :=
  forallb (fun a => negb (stores key a)) during.

(** No deferred write for [key] is queued. *)
Definition none_pending (key : string) (w : World) : bool :=
  forallb (fun p => negb (String.eqb (pw_key p) key)) (timers w).

(** The event is a localStorage.setItem on the item [k]. *)
Definition writes_to (k : string) (e : Event) : bool :=
  match e with
  | ESetItem k' _ => String.eqb k' k
  | _ => false
  end.

(** [key] is absent and nothing is under way that would bring it back:
    the lookup answers null at every clock reading and no deferred write
    for the key is queued. *)
Definition absent (key : string) (w : World) : Prop :=
  (forall t, cache_answer key t (memoryCache w) (localStorage w) = VNull)
  /\ none_pending key w = true.

End MoreReadings.

(** ** Example worlds *)

(** A world in which an older payload for the movie genre list sits in the
    persistent tier: it was cached at 1000 ms with a long ttl and its
    deferred write has run. *)
Definition genres_persisted : World :=
  run_timer (RT := Reference.browser)
    (after (setInCache "genres:movie" (VStr "old") (VNum 100000)
              (Reference.start 1000))).

(** The page has been reloaded 50 ms after a payload was cached with ttl
    100: the persistent tier holds the entry stamped 1000 ms, the memory
    tier is empty and the clock reads 1050 ms. *)
Definition reloaded : World :=
  advance 50
    (after (clearAllCache true
              (run_timer (RT := Reference.browser)
                 (after (setInCache "movie:550" (VStr "payload") (VNum 100)
                           (Reference.start 1000)))))).

(** The network answers every request with TMDB's 404 body. *)
Definition not_found : Network :=
  fun _ =>
    Answered
      (mkResponse 404
         (Reference.stringify
            (VObj [("success", VBool false); ("status_code", VNum 34);
                   ("status_message",
                    VStr "The resource you requested could not be found.")]))).

(** The network answers every request with an (empty) genre list. *)
Definition genre_list : Network :=
  fun _ =>
    Answered (mkResponse 200 (Reference.stringify (VObj [("genres", VArr [])]))).



(** A payload for movie 550 was cached and the whole cache cleared at
    once: both tiers are empty and the deferred write of the payload is
    still queued. *)
Definition cleared_while_pending : World :=
  after (clearAllCache false
           (after (setInCache "movie:550" (VStr "payload") (VNum 100000)
                     (Reference.start 1000)))).

(** The persistent tier holds a string that is not JSON under the key of
    movie 550. *)
Definition corrupted : World :=
  mkWorld 1000 "k" ∅ (<["filmzimmer:tmdb:movie:550" := "{oops"]> ∅) [] [].

(** The network answers every request with the credits of a movie. *)
Definition credits_answer : Network :=
  fun _ =>
    Answered
      (mkResponse 200
         (Reference.stringify
            (VObj [("id", VNum 550); ("cast", VArr []); ("crew", VArr [])]))).

(** A search result as the pages pass it to the favourites manager. *)
Definition film : JsValue :=
  VObj [("id", VNum 550); ("title", VStr "Fight Club"); ("vote_average", VNum 8)].

(** The journal holds that one film. *)
Definition one_favourite : World :=
  after (Favourites.addFavourite (RT := Reference.browser) film (Reference.start 1000)).

(** ** What each function computes *)

Section Facts.
Context `{RT : Runtime}.

Lemma truthy_not_nullish v : truthy v = true -> nullish v = false.
Proof. by destruct v. Qed.

Lemma isCacheValid_spec entry w :
  isCacheValid entry w = (Normal (entry_valid (now w) entry), w).
Proof.
  unfold isCacheValid, entry_valid.
  destruct (truthy entry) eqn:He; simpl; [|done].
  unfold bind, get_prop. rewrite (truthy_not_nullish _ He). simpl.
  destruct (truthy (prop entry "timestamp")); simpl; [|done].
  destruct (truthy (prop entry "ttl")); simpl; done.
Qed.

Lemma entry_valid_truthy t entry : entry_valid t entry = true -> truthy entry = true.
Proof. unfold entry_valid. by destruct (truthy entry). Qed.

Lemma entry_valid_mkEntry t data ts ttl :
  entry_valid t (mkEntry data ts (VNum ttl))
  = negb (ts =? 0) && negb (ttl =? 0) && bool_decide (t - ts < ttl).
Proof.
  unfold entry_valid, mkEntry, js_lt, js_sub. simpl.
  by rewrite !ToNumber_num.
Qed.

(** A numeric entry is valid while less than ttl ms have passed since its
    non-zero timestamp, and stale from then on. *)
Lemma entry_valid_fresh t data ts ttl :
  ts <> 0 -> 0 < ttl -> t - ts < ttl ->
  entry_valid t (mkEntry data ts (VNum ttl)) = true.
Proof.
  intros Hts Httl Hlt. rewrite entry_valid_mkEntry.
  rewrite bool_decide_eq_true_2 by done.
  apply andb_true_intro; split; [|done].
  apply andb_true_intro; split; apply negb_true_iff; lia.
Qed.

Lemma entry_valid_stale t data ts ttl :
  ttl <= t - ts -> entry_valid t (mkEntry data ts (VNum ttl)) = false.
Proof.
  intros Hge. rewrite entry_valid_mkEntry.
  rewrite bool_decide_eq_false_2 by lia. apply andb_false_r.
Qed.

Lemma getFromMemoryCache_spec key w :
  getFromMemoryCache key w =
    if entry_valid (now w) (memory_entry key w)
    then (Normal (prop (memory_entry key w) "data"), w)
    else if truthy (memory_entry key w)
         then (Normal VNull, with_memory (delete key (memoryCache w)) w)
         else (Normal VNull, w).
Proof.
  unfold getFromMemoryCache, bind, memoryCache_get. fold (memory_entry key w).
  destruct (truthy (memory_entry key w)) eqn:He.
  - rewrite isCacheValid_spec.
    destruct (entry_valid _ _); [|done].
    unfold get_prop. by rewrite (truthy_not_nullish _ He).
  - unfold entry_valid. rewrite He. done.
Qed.

Lemma getFromLocalStorage_spec key w :
  getFromLocalStorage key w =
    let k := storage_key key in
    let w1 := log (EGetItem k) w in
    match localStorage w !! k with
    | None => (Normal VNull, w1)
    | Some raw =>
        if String.eqb raw "" then (Normal VNull, w1) else
        match JSON_parse raw with
        | None => (Normal VNull, log (EWarn key) w1)
        | Some entry =>
            if entry_valid (now w) entry
            then (Normal (prop entry "data"), w1)
            else (Normal VNull,
                  log (ERemoveItem k) (with_storage (delete k (localStorage w)) w1))
        end
    end.
Proof.
  unfold getFromLocalStorage, try_catch, bind, localStorage_getItem, storage_key.
  simpl.
  destruct (localStorage w !! (STORAGE_PREFIX +:+ key)) as [raw|] eqn:Hraw; simpl; [|done].
  destruct (String.eqb raw "") eqn:Hempty; simpl; [done|].
  unfold JSON_parse_or_throw.
  destruct (JSON_parse raw) as [entry|]; simpl; [|done].
  rewrite isCacheValid_spec. simpl.
  destruct (entry_valid (now w) entry) eqn:Hv; [|done].
  unfold get_prop. by rewrite (truthy_not_nullish _ (entry_valid_truthy _ _ Hv)).
Qed.

Lemma getFromCache_spec key w :
  getFromCache key w =
    let k := storage_key key in
    if memory_hit key w then (Normal (prop (memory_entry key w) "data"), w)
    else
      let w2 := log (EGetItem k) (evict key w) in
      match localStorage w !! k with
      | None => (Normal VNull, w2)
      | Some raw =>
          if String.eqb raw "" then (Normal VNull, w2) else
          match JSON_parse raw with
          | None => (Normal VNull, log (EWarn key) w2)
          | Some entry =>
              if entry_valid (now w) entry then
                if not_null (prop entry "data") then
                  (Normal (prop entry "data"),
                   promote key (prop entry "data") (prop entry "ttl")
                     (log (EGetItem k) w2))
                else (Normal VNull, w2)
              else
                (Normal VNull,
                 log (ERemoveItem k) (with_storage (delete k (localStorage w)) w2))
          end
      end.
Proof.
  unfold getFromCache, bind at 1. rewrite getFromMemoryCache_spec.
  unfold memory_hit, evict.
  set (m := memory_entry key w).
  assert (Hrest : forall w1, now w1 = now w -> localStorage w1 = localStorage w ->
    (let* storageData := getFromLocalStorage key in
     if not_null storageData then
       let* raw := localStorage_getItem (STORAGE_PREFIX +:+ key) in
       when (negb (is_empty_raw raw))
         (let* entry := JSON_parse_or_throw (default "" raw) in
          let* ttl := get_prop entry "ttl" in
          setInMemoryCache key storageData ttl) >>
       ret storageData
     else ret VNull) w1 =
    let k := storage_key key in
    let w2 := log (EGetItem k) w1 in
    match localStorage w !! k with
    | None => (Normal VNull, w2)
    | Some raw =>
        if String.eqb raw "" then (Normal VNull, w2) else
        match JSON_parse raw with
        | None => (Normal VNull, log (EWarn key) w2)
        | Some entry =>
            if entry_valid (now w) entry then
              if not_null (prop entry "data") then
                (Normal (prop entry "data"),
                 promote key (prop entry "data") (prop entry "ttl")
                   (log (EGetItem k) w2))
              else (Normal VNull, w2)
            else
              (Normal VNull,
               log (ERemoveItem k) (with_storage (delete k (localStorage w)) w2))
        end
    end).
  { intros w1 Hnow Hst. unfold bind at 1. rewrite getFromLocalStorage_spec.
    rewrite Hnow, Hst. cbv zeta.
    destruct (localStorage w !! storage_key key) as [raw|] eqn:Hraw; [|done].
    destruct (String.eqb raw "") eqn:Hempty; [done|].
    destruct (JSON_parse raw) as [entry|] eqn:Hparse; [|done].
    destruct (entry_valid (now w) entry) eqn:Hv; [|by rewrite <- Hst].
    destruct (not_null (prop entry "data")) eqn:Hd; [|done].
    unfold bind, localStorage_getItem, when, is_empty_raw. simpl.
    fold (storage_key key). rewrite Hst, Hraw, Hempty. simpl.
    unfold JSON_parse_or_throw. rewrite Hparse. simpl.
    unfold get_prop. rewrite (truthy_not_nullish _ (entry_valid_truthy _ _ Hv)). simpl.
    unfold promote. simpl. by rewrite Hnow. }
  destruct (entry_valid (now w) m) eqn:Hv; simpl.
  - rewrite (entry_valid_truthy _ _ Hv). simpl.
    destruct (not_null (prop m "data")) eqn:Hd; simpl; [done|].
    by apply Hrest.
  - destruct (truthy m) eqn:Ht; simpl; by apply Hrest.
Qed.

Lemma setInCache_spec key data ttl w :
  setInCache key data ttl w =
    (Normal tt,
     with_timers (timers w ++ [mkPending key data ttl]) (promote key data ttl w)).
Proof. reflexivity. Qed.

Lemma setInLocalStorage_callback_spec p w :
  setInLocalStorage_callback p w =
    let k := storage_key (pw_key p) in
    let v := JSON_stringify (mkEntry (pw_data p) (now w) (pw_ttl p)) in
    if setItem_allowed (localStorage w) k v
    then (Normal tt, log (ESetItem k v) (with_storage (<[k := v]> (localStorage w)) w))
    else (Normal tt, log (EWarn (pw_key p)) (log (ESetItem k v) w)).
Proof.
  unfold setInLocalStorage_callback, try_catch, bind, localStorage_setItem, storage_key.
  simpl. by destruct (setItem_allowed _ _ _).
Qed.

(** Timer callbacks touch neither the clock nor the memory tier. *)
Lemma run_timer_now w : now (run_timer w) = now w.
Proof.
  unfold run_timer. destruct (timers w) as [|p rest]; [done|].
  rewrite setInLocalStorage_callback_spec. cbv zeta.
  by destruct (setItem_allowed _ _ _).
Qed.

Lemma run_timer_memory w : memoryCache (run_timer w) = memoryCache w.
Proof.
  unfold run_timer. destruct (timers w) as [|p rest]; [done|].
  rewrite setInLocalStorage_callback_spec. cbv zeta.
  by destruct (setItem_allowed _ _ _).
Qed.

Lemma run_timers_now n w : now (run_timers n w) = now w.
Proof.
  revert w. induction n as [|n IH]; intros w; simpl; [done|].
  by rewrite IH, run_timer_now.
Qed.

Lemma run_timers_memory n w : memoryCache (run_timers n w) = memoryCache w.
Proof.
  revert w. induction n as [|n IH]; intros w; simpl; [done|].
  by rewrite IH, run_timer_memory.
Qed.

Lemma getFromLocalStorage_result key w :
  result (getFromLocalStorage key w)
  = Normal (persistent_answer key (now w) (localStorage w)).
Proof.
  rewrite getFromLocalStorage_spec. cbv zeta. unfold persistent_answer.
  destruct (localStorage w !! storage_key key) as [raw|]; [|done].
  destruct (String.eqb raw ""); [done|].
  destruct (JSON_parse raw) as [entry|]; [|done].
  by destruct (entry_valid (now w) entry).
Qed.

Lemma getFromCache_result key w :
  result (getFromCache key w)
  = Normal (cache_answer key (now w) (memoryCache w) (localStorage w)).
Proof.
  rewrite getFromCache_spec. cbv zeta.
  unfold cache_answer, persistent_answer, memory_hit, memory_entry.
  destruct (_ && _); [done|].
  destruct (localStorage w !! storage_key key) as [raw|]; [|done].
  destruct (String.eqb raw ""); [done|].
  destruct (JSON_parse raw) as [entry|]; [|done].
  destruct (entry_valid (now w) entry); [|done].
  destruct (prop entry "data"); done.
Qed.

Lemma events_since_app w w' evs :
  trace w' = trace w ++ evs -> events_since w w' = evs.
Proof. intros H. unfold events_since. rewrite H. apply drop_app_length. Qed.

Lemma evict_trace key w : trace (evict key w) = trace w.
Proof. unfold evict. by destruct (_ && _). Qed.

Lemma evict_now key w : now (evict key w) = now w.
Proof. unfold evict. by destruct (_ && _). Qed.

Lemma evict_storage key w : localStorage (evict key w) = localStorage w.
Proof. unfold evict. by destruct (_ && _). Qed.

Lemma evict_timers key w : timers (evict key w) = timers w.
Proof. unfold evict. by destruct (_ && _). Qed.

Lemma getFromCache_trace key w :
  trace (after (getFromCache key w)) = trace w ++ lookup_events key w.
Proof.
  rewrite getFromCache_spec. cbv zeta. unfold lookup_events.
  destruct (memory_hit key w); simpl; [by rewrite app_nil_r|].
  destruct (localStorage w !! storage_key key) as [raw|]; simpl;
    [|by rewrite evict_trace].
  destruct (String.eqb raw ""); simpl; [by rewrite evict_trace|].
  destruct (JSON_parse raw) as [entry|]; simpl;
    [|by rewrite evict_trace, <- app_assoc].
  destruct (entry_valid (now w) entry); simpl;
    [|by rewrite evict_trace, <- app_assoc].
  destruct (not_null (prop entry "data")); simpl;
    by rewrite evict_trace, <- ?app_assoc.
Qed.

Lemma in_namespace_prefix k : in_namespace k = String.prefix STORAGE_PREFIX k.
Proof. unfold in_namespace. by destruct k. Qed.

Lemma collect_keys_spec n i acc w :
  collect_keys i n acc w =
    (Normal (acc ++ List.filter in_namespace (take n (drop i (storage_keys w)))), w).
Proof.
  revert i acc. induction n as [|n IH]; intros i acc.
  - simpl. unfold ret. by rewrite app_nil_r.
  - simpl. unfold bind, localStorage_key. fold (storage_keys w).
    rewrite IH.
    destruct (storage_keys w !! i) as [k|] eqn:Hk.
    + rewrite (drop_S _ _ _ Hk). simpl. fold (in_namespace k).
      destruct (in_namespace k); [by rewrite <- app_assoc|done].
    + apply lookup_ge_None in Hk.
      rewrite !drop_ge by lia. by rewrite !take_nil.
Qed.

Lemma forEach_removeItem ks w :
  forEach ks localStorage_removeItem w = (Normal tt, removed ks w).
Proof.
  revert w. induction ks as [|k ks IH]; intros w; [done|].
  simpl. unfold bind. simpl. apply IH.
Qed.

Lemma removed_memory ks w : memoryCache (removed ks w) = memoryCache w.
Proof. revert w. induction ks as [|k ks IH]; intros w; [done|]. simpl. by rewrite IH. Qed.

Lemma removed_lookup ks w k :
  localStorage (removed ks w) !! k
  = if bool_decide (k ∈ ks) then None else localStorage w !! k.
Proof.
  revert w. induction ks as [|k' ks IH]; intros w.
  - rewrite bool_decide_eq_false_2; [done|]. by intros ?%elem_of_nil.
  - cbn [removed]. rewrite IH. simpl.
    destruct (decide (k = k')) as [->|Hne].
    + rewrite lookup_delete_eq.
      rewrite (bool_decide_eq_true_2 (k' ∈ k' :: ks)) by (apply elem_of_cons; by left).
      by case_bool_decide.
    + rewrite lookup_delete_ne by done.
      destruct (decide (k ∈ ks)) as [Hin|Hnin].
      * rewrite (bool_decide_eq_true_2 (k ∈ ks)) by done.
        by rewrite (bool_decide_eq_true_2 (k ∈ k' :: ks)) by (apply elem_of_cons; by right).
      * rewrite (bool_decide_eq_false_2 (k ∈ ks)) by done.
        by rewrite (bool_decide_eq_false_2 (k ∈ k' :: ks)) by (by apply not_elem_of_cons).
Qed.

Lemma clearAllCache_spec memoryOnly w :
  clearAllCache memoryOnly w =
    (Normal tt,
     if memoryOnly then with_memory ∅ w
     else removed (List.filter in_namespace (storage_keys w)) (with_memory ∅ w)).
Proof.
  unfold clearAllCache, bind, memoryCache_clear, when. simpl.
  destruct memoryOnly; simpl; [done|].
  unfold localStorage_length. rewrite collect_keys_spec. simpl.
  rewrite forEach_removeItem. unfold storage_keys. simpl.
  rewrite drop_0, take_ge; [done|]. by rewrite length_fmap.
Qed.

Lemma buildUrl_spec endpoint params w :
  buildUrl endpoint params w = (Normal (built_url endpoint params w), w).
Proof. reflexivity. Qed.

Lemma built_url_apiKey endpoint params w w' :
  apiKey w' = apiKey w -> built_url endpoint params w' = built_url endpoint params w.
Proof. intros H. unfold built_url, buildUrl. simpl. by rewrite H. Qed.

Lemma fetchFromApi_spec net url w :
  fetchFromApi net url w = (fetch_outcome net url, log (EFetch url) w).
Proof.
  unfold fetchFromApi, fetch_outcome, bind, fetch.
  destruct (net url) as [e|r]; [done|].
  destruct (response_ok r); simpl.
  - unfold response_json, JSON_parse_or_throw. by destruct (JSON_parse (body r)).
  - unfold try_catch, response_json, JSON_parse_or_throw, get_prop.
    destruct (JSON_parse (body r)) as [v|]; simpl; [|done].
    by destruct (nullish v).
Qed.

Lemma getFromCache_apiKey key w : apiKey (after (getFromCache key w)) = apiKey w.
Proof.
  rewrite getFromCache_spec. cbv zeta.
  assert (He : apiKey (evict key w) = apiKey w) by (unfold evict; by destruct (_ && _)).
  destruct (memory_hit key w); [done|].
  destruct (localStorage w !! storage_key key) as [raw|]; [|done].
  destruct (String.eqb raw ""); [done|].
  destruct (JSON_parse raw) as [entry|]; [|done].
  destruct (entry_valid (now w) entry); [|done].
  by destruct (not_null (prop entry "data")).
Qed.

Lemma fetchWithCache_spec net key endpoint params ttl w :
  fetchWithCache net key endpoint params ttl w =
    let w1 := after (getFromCache key w) in
    let url := built_url endpoint params w in
    if not_null (cache_answer key (now w) (memoryCache w) (localStorage w))
    then (Normal (cache_answer key (now w) (memoryCache w) (localStorage w)), w1)
    else
      match fetch_outcome net url with
      | Normal data =>
          (Normal data, after (setInCache key data ttl (log (EFetch url) w1)))
      | Throw e => (Throw e, log (EFetch url) w1)
      end.
Proof.
  unfold fetchWithCache, bind at 1.
  pose proof (getFromCache_result key w) as Hr.
  destruct (getFromCache key w) as [r w1] eqn:Hg. simpl in Hr. subst r. simpl.
  destruct (not_null _); [done|].
  unfold bind. rewrite buildUrl_spec.
  rewrite (built_url_apiKey endpoint params w w1)
    by (by rewrite <- (getFromCache_apiKey key w), Hg).
  unfold fetchWithCache_load, bind. rewrite fetchFromApi_spec.
  by destruct (fetch_outcome _ _).
Qed.

(** What a lookup that misses leaves behind. *)
Lemma getFromCache_miss key w :
  cache_answer key (now w) (memoryCache w) (localStorage w) = VNull ->
  memoryCache (after (getFromCache key w)) = memoryCache (evict key w)
  /\ timers (after (getFromCache key w)) = timers w
  /\ List.filter is_setItem (lookup_events key w) = []
  /\ (localStorage (after (getFromCache key w)) = localStorage w
      \/ localStorage (after (getFromCache key w))
         = delete (storage_key key) (localStorage w))
  /\ forall t, cache_answer key t (memoryCache (after (getFromCache key w)))
                 (localStorage (after (getFromCache key w))) = VNull.
Proof.
  intros Hans.
  assert (Hmem : forall t,
    entry_valid t (default VUndefined (memoryCache (evict key w) !! key))
    && not_null (prop (default VUndefined (memoryCache (evict key w) !! key)) "data")
    = false).
  { intros t. unfold evict. fold (memory_entry key w).
    unfold cache_answer in Hans. fold (memory_entry key w) in Hans.
    destruct (truthy (memory_entry key w)) eqn:Ht; simpl.
    - destruct (entry_valid (now w) (memory_entry key w)) eqn:Hv; simpl.
      + fold (memory_entry key w).
        destruct (not_null (prop (memory_entry key w) "data")) eqn:Hd;
          [|by rewrite andb_false_r].
        simpl in Hans. rewrite Hans in Hd. done.
      + by rewrite lookup_delete_eq.
    - fold (memory_entry key w). unfold entry_valid. by rewrite Ht. }
  rewrite getFromCache_spec. cbv zeta. unfold lookup_events.
  unfold cache_answer, persistent_answer in Hans |- *. unfold memory_hit, memory_entry.
  destruct (_ && _) eqn:Hhit.
  { apply andb_prop in Hhit as [_ Hd]. rewrite Hans in Hd. done. }
  destruct (localStorage w !! storage_key key) as [raw|] eqn:Hraw.
  2:{ simpl. rewrite evict_storage, evict_timers.
      repeat split; auto. intros t. by rewrite Hmem, Hraw. }
  destruct (String.eqb raw "") eqn:Hempty.
  { simpl. rewrite evict_storage, evict_timers.
    repeat split; auto. intros t. by rewrite Hmem, Hraw, Hempty. }
  destruct (JSON_parse raw) as [entry|] eqn:Hparse.
  2:{ simpl. rewrite evict_storage, evict_timers.
      repeat split; auto. intros t. by rewrite Hmem, Hraw, Hempty, Hparse. }
  destruct (entry_valid (now w) entry) eqn:Hv.
  - rewrite Hans. simpl. rewrite evict_storage, evict_timers.
    repeat split; auto. intros t. rewrite Hmem, Hraw, Hempty, Hparse.
    by destruct (entry_valid t entry).
  - simpl. rewrite evict_timers.
    repeat split; auto. intros t. by rewrite Hmem, lookup_delete_eq.
Qed.

Lemma evict_subseteq key w : memoryCache (evict key w) ⊆ memoryCache w.
Proof. unfold evict. destruct (_ && _); [apply delete_subseteq|done]. Qed.


(** fetchFromApi on a response outside 200 to 299. *)
Lemma non_2xx_never_resolves net url r w :
  net url = Answered r -> response_ok r = false ->
  exists e, result (fetchFromApi net url w) = Throw e.
Proof.
  intros Hnet Hok. rewrite fetchFromApi_spec. simpl.
  unfold fetch_outcome. rewrite Hnet, Hok. simpl.
  destruct (nullish _); eauto.
Qed.

Lemma non_2xx_status_message net url r errorBody w :
  net url = Answered r -> response_ok r = false ->
  JSON_parse (body r) = Some errorBody ->
  truthy (prop errorBody "status_message") = true ->
  result (fetchFromApi net url w)
  = Throw (Error ("[TMDB API Error] " +:+ to_string (prop errorBody "status_message"))).
Proof.
  intros Hnet Hok Hparse Hsm. rewrite fetchFromApi_spec. simpl.
  unfold fetch_outcome. rewrite Hnet, Hok, Hparse. simpl.
  destruct errorBody; try done. by rewrite Hsm.
Qed.

Lemma non_2xx_unparsable_body net url r w :
  net url = Answered r -> response_ok r = false ->
  JSON_parse (body r) = None ->
  result (fetchFromApi net url w)
  = Throw (Error ("[TMDB API Error] HTTP " +:+ pretty (status r))).
Proof.
  intros Hnet Hok Hparse. rewrite fetchFromApi_spec. simpl.
  unfold fetch_outcome. by rewrite Hnet, Hok, Hparse.
Qed.

Lemma non_2xx_no_status_message net url r errorBody w :
  net url = Answered r -> response_ok r = false ->
  JSON_parse (body r) = Some errorBody ->
  nullish errorBody = false ->
  truthy (prop errorBody "status_message") = false ->
  result (fetchFromApi net url w)
  = Throw (Error ("[TMDB API Error] HTTP " +:+ pretty (status r))).
Proof.
  intros Hnet Hok Hparse Hnn Hsm. rewrite fetchFromApi_spec. simpl.
  unfold fetch_outcome. rewrite Hnet, Hok, Hparse. simpl.
  by rewrite Hnn, Hsm.
Qed.

(** A body that parses to null: reading status_message off it throws. *)
Lemma non_2xx_null_body net url r w :
  net url = Answered r -> response_ok r = false ->
  JSON_parse (body r) = Some VNull ->
  result (fetchFromApi net url w) = Throw (TypeError "Cannot read properties of null").
Proof.
  intros Hnet Hok Hparse. rewrite fetchFromApi_spec. simpl.
  unfold fetch_outcome. by rewrite Hnet, Hok, Hparse.
Qed.

Lemma kept_app a b : kept (a ++ b) = kept a ++ kept b.
Proof. unfold kept. by rewrite List.filter_app, map_app. Qed.

Lemma colon_free_no_colon s a x :
  colon_free s = true -> s <> a +:+ ":" +:+ x.
Proof.
  revert a. induction s as [|c s IH]; intros a Hs Heq.
  - by destruct a.
  - simpl in Hs. apply andb_prop in Hs as [Hc Hs].
    destruct a as [|c' a]; simpl in Heq.
    + injection Heq as -> _. done.
    + injection Heq as _ Heq. by apply (IH a).
Qed.

Lemma colon_split a b x y :
  colon_free a = true -> colon_free b = true ->
  a +:+ ":" +:+ x = b +:+ ":" +:+ y -> a = b /\ x = y.
Proof.
  revert b. induction a as [|c a IH]; intros b Ha Hb Heq.
  - destruct b as [|c' b]; simpl in *.
    + by injection Heq.
    + injection Heq as <- _. done.
  - simpl in Ha. apply andb_prop in Ha as [Hc Ha].
    destruct b as [|c' b]; simpl in *.
    + injection Heq as -> _. done.
    + apply andb_prop in Hb as [Hc' Hb].
      injection Heq as -> Heq.
      destruct (IH b Ha Hb Heq) as [-> ->]. done.
Qed.

Lemma plain_nonempty s : plain s = true -> s <> "".
Proof. unfold plain. intros [_ H]%andb_prop ->. done. Qed.

Lemma plain_colon_free s : plain s = true -> colon_free s = true.
Proof. unfold plain. by intros [H _]%andb_prop. Qed.

Lemma join_cons2 sep a b l : join sep (a :: b :: l) = a +:+ sep +:+ join sep (b :: l).
Proof. reflexivity. Qed.

Lemma join_plain_inj l1 l2 :
  forallb plain l1 = true -> forallb plain l2 = true ->
  join ":" l1 = join ":" l2 -> l1 = l2.
Proof.
  revert l2. induction l1 as [|a l1 IH]; intros l2 H1 H2 Heq.
  - destruct l2 as [|b [|c l2]]; [done| |].
    + simpl in *. apply andb_prop in H2 as [Hb _].
      by destruct (plain_nonempty _ Hb).
    + rewrite join_cons2 in Heq. simpl in H2. apply andb_prop in H2 as [Hb _].
      apply plain_nonempty in Hb. destruct b; [done|]. simpl in Heq. done.
  - simpl in H1. apply andb_prop in H1 as [Ha H1].
    destruct l1 as [|a2 l1].
    + destruct l2 as [|b [|c l2]].
      * simpl in Heq. by destruct (plain_nonempty _ Ha).
      * simpl in Heq. by rewrite Heq.
      * rewrite join_cons2 in Heq. simpl in Heq.
        by destruct (colon_free_no_colon _ _ _ (plain_colon_free _ Ha) Heq).
    + rewrite join_cons2 in Heq.
      destruct l2 as [|b [|c l2]].
      * simpl in Heq. apply plain_nonempty in Ha. destruct a; [done|]. done.
      * simpl in Heq, H2. apply andb_prop in H2 as [Hb _].
        symmetry in Heq.
        by destruct (colon_free_no_colon _ _ _ (plain_colon_free _ Hb) Heq).
      * rewrite join_cons2 in Heq.
        assert (H2' := H2). simpl in H2'. apply andb_prop in H2' as [Hb H2'].
        destruct (colon_split _ _ _ _ (plain_colon_free _ Ha) (plain_colon_free _ Hb) Heq)
          as [-> Hrest].
        f_equal. by apply IH.
Qed.

Lemma not_null_iff v : not_null v = true <-> v <> VNull.
Proof. destruct v; simpl; split; congruence. Qed.

Lemma eqb_empty_false s : s <> "" -> String.eqb s "" = false.
Proof. intros H. by apply String.eqb_neq. Qed.

Lemma written_then_aged_accepted key data ttl d1 d2 w :
  timers w = [] ->
  setItem_allowed (localStorage w) (storage_key key)
    (JSON_stringify (mkEntry data (now w + d1) (VNum ttl))) = true ->
  written_then_aged key data ttl d1 d2 w =
    mkWorld (now w + d1 + d2) (apiKey w)
      (<[key := mkEntry data (now w) (VNum ttl)]> (memoryCache w))
      (<[storage_key key := JSON_stringify (mkEntry data (now w + d1) (VNum ttl))]>
         (localStorage w))
      []
      (trace w ++ [ESetItem (storage_key key)
                     (JSON_stringify (mkEntry data (now w + d1) (VNum ttl)))]).
Proof.
  intros Htimers Hquota.
  unfold written_then_aged, advance, run_timer. rewrite setInCache_spec. simpl.
  rewrite Htimers. simpl. rewrite setInLocalStorage_callback_spec. simpl.
  by rewrite Hquota.
Qed.

(** Once the network has answered with a failure, the rest of
    fetchWithCache changes nothing but the trace, in whatever world it
    resumes. *)
Lemma failed_load_leaves_world net key url ttl e w :
  result (fetchFromApi net url w) = Throw e ->
  fetchWithCache_load net key url ttl w = (Throw e, log (EFetch url) w).
Proof.
  intros Hload. rewrite fetchFromApi_spec in Hload. simpl in Hload.
  unfold fetchWithCache_load, bind. by rewrite fetchFromApi_spec, Hload.
Qed.

Lemma isCacheValid_true entry w :
  result (isCacheValid entry w) = Normal true <-> entry_valid (now w) entry = true.
Proof. rewrite isCacheValid_spec. simpl. split; congruence. Qed.

Lemma getFromMemoryCache_result key w :
  result (getFromMemoryCache key w)
  = Normal (if entry_valid (now w) (memory_entry key w)
            then prop (memory_entry key w) "data" else VNull).
Proof.
  rewrite getFromMemoryCache_spec.
  destruct (entry_valid _ _); [done|]. by destruct (truthy _).
Qed.

(** The memory tier does not serve the key exactly when its lookup is null. *)
Lemma memory_miss_iff key w :
  result (getFromMemoryCache key w) = Normal VNull <-> memory_hit key w = false.
Proof.
  rewrite getFromMemoryCache_result. unfold memory_hit.
  destruct (entry_valid _ _); simpl; [|done].
  destruct (prop (memory_entry key w) "data"); simpl; split; congruence.
Qed.

(** A non-null payload written at a clock reading other than 0 is served
    from the memory tier until the clock moves, whatever the queued timer
    callbacks do in between. *)
Lemma fresh_entry_served key data ttl w n :
  0 < ttl -> now w <> 0 -> data <> VNull ->
  result (getFromCache key
            (run_timers n (after (setInCache key data (VNum ttl) w))))
  = Normal data.
Proof.
  intros Httl Hnow Hdata.
  rewrite getFromCache_spec. cbv zeta.
  assert (Hm : memory_entry key (run_timers n (after (setInCache key data (VNum ttl) w)))
               = mkEntry data (now w) (VNum ttl)).
  { unfold memory_entry. rewrite run_timers_memory, setInCache_spec. simpl.
    by rewrite lookup_insert_eq. }
  unfold memory_hit. rewrite Hm, run_timers_now, setInCache_spec.
  simpl after. simpl now. rewrite entry_valid_fresh by lia.
  simpl. apply not_null_iff in Hdata. by rewrite Hdata.
Qed.

End Facts.

(** ** Properties of the cache *)

Section Properties.
Context `{RT : Runtime}.

(** C1 (freshness), as the code has it.  For every key, every payload
    and every ttl > 0, at a clock reading other than 0,
    setInCache(key, data, ttl) followed by getFromCache(key) with no clock
    advance in between returns data, except that for the payload null the
    persistent tier is consulted and must not still hold a valid entry
    with another payload under the key. *)
Theorem freshness key data ttl w :
  0 < ttl -> now w <> 0 ->
  (data = VNull -> result (getFromLocalStorage key w) = Normal VNull) ->
  result (getFromCache key (after (setInCache key data (VNum ttl) w))) = Normal data.
Proof.
  intros Httl Hnow Hnull.
  rewrite getFromCache_result, setInCache_spec. simpl.
  unfold cache_answer. rewrite lookup_insert_eq. simpl default.
  rewrite entry_valid_fresh by lia. simpl.
  destruct (not_null data) eqn:Hd; [done|].
  destruct data; try discriminate Hd.
  specialize (Hnull eq_refl). rewrite getFromLocalStorage_result in Hnull.
  by injection Hnull as ->.
Qed.


(** C3 (tier promotion), as the code has it.  Whenever getFromCache(key)
    is not served by the memory tier and finds a valid persistent entry
    with a non-null payload, it returns that payload and writes a memory
    entry that carries the persistent entry's full ttl and a fresh
    timestamp, the time of the read.  The promoted entry is therefore
    valid until read time + ttl, while the persistent entry is valid until
    its own timestamp + ttl: promotion restarts the time-to-live. *)
Theorem promotion_restarts_ttl key raw data ts ttl w :
  result (getFromMemoryCache key w) = Normal VNull ->
  localStorage w !! storage_key key = Some raw ->
  raw <> "" ->
  JSON_parse raw = Some (mkEntry data ts (VNum ttl)) ->
  result (isCacheValid (mkEntry data ts (VNum ttl)) w) = Normal true ->
  data <> VNull ->
  now w <> 0 ->
  result (getFromCache key w) = Normal data
  /\ memoryCache (after (getFromCache key w)) !! key
     = Some (mkEntry data (now w) (VNum ttl))
  /\ (forall t,
        result (isCacheValid (mkEntry data (now w) (VNum ttl))
                  (with_now t (after (getFromCache key w)))) = Normal true
        <-> t < now w + ttl)
  /\ (forall t,
        result (isCacheValid (mkEntry data ts (VNum ttl))
                  (with_now t (after (getFromCache key w)))) = Normal true
        <-> t < ts + ttl).
Proof.
  intros Hmiss Hraw Hne Hparse Hvalid Hdata Hnow.
  apply memory_miss_iff in Hmiss. apply isCacheValid_true in Hvalid.
  apply not_null_iff in Hdata.
  assert (Hr : result (getFromCache key w) = Normal data).
  { rewrite getFromCache_result. unfold cache_answer, persistent_answer.
    unfold memory_hit, memory_entry in Hmiss.
    by rewrite Hmiss, Hraw, (eqb_empty_false _ Hne), Hparse, Hvalid. }
  assert (Hm : memoryCache (after (getFromCache key w)) !! key
               = Some (mkEntry data (now w) (VNum ttl))).
  { rewrite getFromCache_spec. cbv zeta.
    rewrite Hmiss, Hraw, (eqb_empty_false _ Hne), Hparse, Hvalid.
    change (prop (mkEntry data ts (VNum ttl)) "data") with data.
    rewrite Hdata. unfold promote. simpl.
    by rewrite lookup_insert_eq, evict_now. }
  rewrite entry_valid_mkEntry in Hvalid.
  apply andb_prop in Hvalid as [Hvalid _]. apply andb_prop in Hvalid as [Hts Httl].
  split; [exact Hr|]. split; [exact Hm|]. split.
  - intros t. rewrite isCacheValid_true. simpl now.
    rewrite entry_valid_mkEntry, Httl.
    assert ((now w =? 0) = false) as -> by lia. simpl.
    rewrite bool_decide_eq_true. lia.
  - intros t. rewrite isCacheValid_true. simpl now.
    rewrite entry_valid_mkEntry, Hts, Httl. simpl.
    rewrite bool_decide_eq_true. lia.
Qed.

(** C4 (read cost bound), as the code has it.  Every getFromCache(key)
    call performs no network call and at most two persistent-storage
    reads: none on a memory hit, exactly two when the persistent tier
    serves the lookup (getFromLocalStorage reads the item and getFromCache
    reads it again to recover its ttl for the promotion), and exactly one
    on every other path. *)
Theorem read_cost_bound key w :
  trace (after (getFromCache key w))
  = trace w ++ events_since w (after (getFromCache key w))
  /\ List.filter is_fetch (events_since w (after (getFromCache key w))) = []
  /\ (reads (events_since w (after (getFromCache key w))) <= 2)%nat
  /\ exists fromMemory answer,
       result (getFromMemoryCache key w) = Normal fromMemory
       /\ result (getFromCache key w) = Normal answer
       /\ reads (events_since w (after (getFromCache key w)))
          = (if not_null fromMemory then 0
             else if not_null answer then 2 else 1)%nat.
Proof.
  pose proof (getFromCache_trace key w) as Htr.
  rewrite (events_since_app _ _ _ Htr).
  split; [exact Htr|]. clear Htr.
  assert (Hex : exists fromMemory answer,
       result (getFromMemoryCache key w) = Normal fromMemory
       /\ result (getFromCache key w) = Normal answer
       /\ reads (lookup_events key w)
          = (if not_null fromMemory then 0
             else if not_null answer then 2 else 1)%nat).
  { eexists _, _. split; [apply getFromMemoryCache_result|].
    split; [apply getFromCache_result|].
    unfold lookup_events, cache_answer, persistent_answer, memory_hit, reads.
    fold (memory_entry key w).
    destruct (entry_valid (now w) (memory_entry key w)); simpl.
    - destruct (not_null (prop (memory_entry key w) "data")) eqn:Hd; [done|].
      destruct (localStorage w !! storage_key key) as [raw|]; [|done].
      destruct (String.eqb raw ""); [done|].
      destruct (JSON_parse raw) as [entry|]; [|done].
      destruct (entry_valid (now w) entry); [|done].
      destruct (not_null (prop entry "data")) eqn:Hd'; simpl; by rewrite ?Hd'.
    - destruct (localStorage w !! storage_key key) as [raw|]; [|done].
      destruct (String.eqb raw ""); [done|].
      destruct (JSON_parse raw) as [entry|]; [|done].
      destruct (entry_valid (now w) entry); [|done].
      destruct (not_null (prop entry "data")) eqn:Hd'; simpl; by rewrite ?Hd'. }
  split; [|split; [|exact Hex]].
  - unfold lookup_events.
    destruct (memory_hit key w); [done|].
    destruct (localStorage w !! storage_key key) as [raw|]; [|done].
    destruct (String.eqb raw ""); [done|].
    destruct (JSON_parse raw) as [entry|]; [|done].
    destruct (entry_valid (now w) entry); [|done].
    by destruct (not_null (prop entry "data")).
  - destruct Hex as (m & v & _ & _ & ->).
    destruct (not_null m); [lia|]. destruct (not_null v); lia.
Qed.

(** C6 (cache-key construction), as the code has it.  createCacheKey is a
    function of its ordered component list that skips exactly the falsy
    components (undefined, null, false, 0 and the empty string) and joins
    the renderings of the others with a colon.  Two lists whose kept
    components render to non-empty text without a colon yield the same key
    exactly when their kept renderings agree, in order: the same kept
    components give the same key, and a difference in a kept rendering
    gives a different key. *)
Theorem createCacheKey_injective_on_plain :
  (forall before p behind,
     createCacheKey (before ++ p :: behind)
     = if truthy p
       then join ":" (kept before ++ to_string p :: kept behind)
       else createCacheKey (before ++ behind))
  /\ (forall parts1 parts2,
        delimiter_free parts1 = true -> delimiter_free parts2 = true ->
        (createCacheKey parts1 = createCacheKey parts2 <-> kept parts1 = kept parts2)).
Proof.
  split.
  - intros before p behind. unfold createCacheKey. fold (kept (before ++ p :: behind)).
    fold (kept (before ++ behind)). rewrite !kept_app.
    unfold kept at 2. simpl. by destruct (truthy p).
  - intros parts1 parts2 H1 H2. unfold createCacheKey. fold (kept parts1) (kept parts2).
    split; [by apply join_plain_inj | by intros ->].
Qed.

(** C7 (clearAll frame condition).  clearAllCache(memoryOnly) returns
    normally and always empties the memory tier; when memoryOnly is false
    it removes from the persistent store exactly the keys that start with
    the namespace prefix filmzimmer:tmdb: and leaves every other key with
    its value, and when memoryOnly is true it leaves the whole store as it
    was.  In both cases the favourites key filmzimmer:favourites keeps its
    value. *)
Theorem clearAllCache_frame memoryOnly w :
  result (clearAllCache memoryOnly w) = Normal tt
  /\ memoryCache (after (clearAllCache memoryOnly w)) = ∅
  /\ (forall k,
        localStorage (after (clearAllCache memoryOnly w)) !! k
        = if negb memoryOnly && String.prefix STORAGE_PREFIX k
          then None else localStorage w !! k)
  /\ localStorage (after (clearAllCache memoryOnly w)) !! "filmzimmer:favourites"
     = localStorage w !! "filmzimmer:favourites".
Proof.
  assert (Hall : forall k,
        localStorage (after (clearAllCache memoryOnly w)) !! k
        = if negb memoryOnly && String.prefix STORAGE_PREFIX k
          then None else localStorage w !! k).
  { intros k. rewrite clearAllCache_spec. simpl.
    destruct memoryOnly; simpl; [done|].
    rewrite removed_lookup. simpl.
    rewrite <- in_namespace_prefix.
    destruct (in_namespace k) eqn:Hns.
    - destruct (localStorage w !! k) as [v|] eqn:Hk; [|by destruct (bool_decide _)].
      rewrite bool_decide_eq_true_2; [done|].
      apply list_elem_of_In, filter_In. split; [|done].
      apply list_elem_of_In. unfold storage_keys.
      apply list_elem_of_fmap. exists (k, v). split; [done|].
      by apply elem_of_map_to_list.
    - rewrite bool_decide_eq_false_2; [done|].
      intros Hin. apply list_elem_of_In, filter_In in Hin as [_ Hin]. congruence. }
  split; [by rewrite clearAllCache_spec|].
  split.
  - rewrite clearAllCache_spec. simpl. destruct memoryOnly; [done|].
    by rewrite removed_memory.
  - split; [exact Hall|]. rewrite Hall. by destruct memoryOnly.
Qed.

(** C8 (caching-layer failures are absorbed).  getFromCache never throws;
    when the string stored under the key fails to parse as JSON it returns
    what it would return were the key absent from the persistent store.
    setInCache always returns normally; when the deferred persistent write
    throws (the store refuses setItem), the timer callback catches the
    error and leaves both tiers as they were; and whatever the queued
    timers do, the memory tier holds the new entry for the key. *)
Theorem cache_failures_absorbed :
  (forall key w, exists v, result (getFromCache key w) = Normal v)
  /\ (forall key raw w,
        localStorage w !! storage_key key = Some raw ->
        JSON_parse raw = None ->
        result (getFromCache key w)
        = result (getFromCache key
                    (with_storage (delete (storage_key key) (localStorage w)) w)))
  /\ (forall key data ttl w, result (setInCache key data ttl w) = Normal tt)
  /\ (forall p w,
        setItem_allowed (localStorage w) (storage_key (pw_key p))
          (JSON_stringify (mkEntry (pw_data p) (now w) (pw_ttl p))) = false ->
        result (setInLocalStorage_callback p w) = Normal tt
        /\ memoryCache (after (setInLocalStorage_callback p w)) = memoryCache w
        /\ localStorage (after (setInLocalStorage_callback p w)) = localStorage w)
  /\ (forall key data ttl w n,
        memoryCache (run_timers n (after (setInCache key data ttl w))) !! key
        = Some (mkEntry data (now w) ttl)).
Proof.
  split; [|split; [|split; [|split]]].
  - intros key w. eexists. apply getFromCache_result.
  - intros key raw w Hraw Hparse. rewrite !getFromCache_result. simpl.
    unfold cache_answer, persistent_answer.
    rewrite Hraw, Hparse, lookup_delete_eq.
    destruct (_ && _); [done|]. by destruct (String.eqb raw "").
  - done.
  - intros p w Hq. rewrite setInLocalStorage_callback_spec. cbv zeta.
    by rewrite Hq.
  - intros key data ttl w n. rewrite run_timers_memory, setInCache_spec. simpl.
    by rewrite lookup_insert_eq.
Qed.


End Properties.

(** ** Composition of the cache operations *)

Section Composition.
Context `{RT : Runtime}.

Lemma storage_key_inj key key' : storage_key key = storage_key key' -> key = key'.
Proof. unfold storage_key, STORAGE_PREFIX. simpl. intros H. by injection H. Qed.

Lemma prefix_append p s : String.prefix p (p +:+ s) = true.
Proof.
  induction p as [|a p IH]; [by destruct s|]. simpl.
  destruct (ascii_dec a a) as [_|Hne]; [exact IH|by destruct Hne].
Qed.

Lemma storage_key_in_namespace key : String.prefix STORAGE_PREFIX (storage_key key) = true.
Proof. apply prefix_append. Qed.

Lemma entry_valid_mono t t' entry :
  t' <= t -> entry_valid t entry = true -> entry_valid t' entry = true.
Proof.
  intros Hle. unfold entry_valid, js_lt, js_sub. rewrite !ToNumber_num.
  destruct (truthy entry); [|done]. destruct (truthy (prop entry "timestamp")); [|done].
  destruct (truthy (prop entry "ttl")); [|done]. simpl.
  destruct (ToNumber (prop entry "timestamp")) as [ts|]; [|done].
  destruct (ToNumber (prop entry "ttl")) as [ttl|]; [|done].
  rewrite !bool_decide_eq_true. lia.
Qed.

(** X3 (expiry is final).  An entry that isCacheValid rejects at one
    clock reading is rejected at every later reading: only a new write
    can make a key valid again. *)
Theorem stale_stays_stale entry t t' w :
  t <= t' ->
  result (isCacheValid entry (with_now t w)) = Normal false ->
  result (isCacheValid entry (with_now t' w)) = Normal false.
Proof.
  intros Hle. rewrite !isCacheValid_spec. simpl. intros H. injection H as H.
  f_equal. destruct (entry_valid t' entry) eqn:Hv; [|done].
  by rewrite (entry_valid_mono _ _ _ Hle Hv) in H.
Qed.

Lemma evict_apiKey key w : apiKey (evict key w) = apiKey w.
Proof. unfold evict. by destruct (_ && _). Qed.

Lemma evict_other key key' w :
  key' <> key -> memoryCache (evict key w) !! key' = memoryCache w !! key'.
Proof.
  intros Hne. unfold evict. destruct (_ && _); [|done].
  simpl. by rewrite lookup_delete_ne.
Qed.

(** What a lookup leaves alone. *)
Lemma getFromCache_keeps key w :
  now (after (getFromCache key w)) = now w
  /\ timers (after (getFromCache key w)) = timers w
  /\ apiKey (after (getFromCache key w)) = apiKey w
  /\ (forall key', key' <> key ->
        memoryCache (after (getFromCache key w)) !! key' = memoryCache w !! key')
  /\ (forall k, k <> storage_key key ->
        localStorage (after (getFromCache key w)) !! k = localStorage w !! k).
Proof.
  rewrite getFromCache_spec. cbv zeta.
  destruct (memory_hit key w); [done|].
  destruct (localStorage w !! storage_key key) as [raw|]; simpl;
    [|rewrite evict_now, evict_timers, evict_storage, evict_apiKey;
      repeat split; auto using evict_other].
  destruct (String.eqb raw ""); simpl;
    [rewrite evict_now, evict_timers, evict_storage, evict_apiKey;
      repeat split; auto using evict_other|].
  destruct (JSON_parse raw) as [entry|]; simpl;
    [|rewrite evict_now, evict_timers, evict_storage, evict_apiKey;
      repeat split; auto using evict_other].
  destruct (entry_valid (now w) entry); simpl.
  - destruct (not_null (prop entry "data")); simpl;
      rewrite ?evict_now, evict_timers, evict_storage, evict_apiKey;
      repeat split; auto using evict_other.
    intros key' Hne. rewrite lookup_insert_ne by done. by apply evict_other.
  - rewrite evict_now, evict_timers, evict_apiKey.
    repeat split; auto using evict_other.
    intros k Hne. by rewrite lookup_delete_ne.
Qed.

(** X1 (a lookup touches only its own key).  getFromCache(key) leaves the
    clock, the pending deferred writes and the API key as they are, and
    changes no memory entry other than the one under key and no
    localStorage item other than the one under the prefixed key. *)
Theorem lookup_touches_only_its_key key w :
  now (after (getFromCache key w)) = now w
  /\ timers (after (getFromCache key w)) = timers w
  /\ apiKey (after (getFromCache key w)) = apiKey w
  /\ (forall key', key' <> key ->
        memoryCache (after (getFromCache key w)) !! key' = memoryCache w !! key')
  /\ (forall k, k <> storage_key key ->
        localStorage (after (getFromCache key w)) !! k = localStorage w !! k).
Proof. apply getFromCache_keeps. Qed.

Lemma lookup_events_no_fetch key w : List.filter is_fetch (lookup_events key w) = [].
Proof.
  unfold lookup_events. destruct (memory_hit key w); [done|].
  destruct (localStorage w !! storage_key key) as [raw|]; [|done].
  destruct (String.eqb raw ""); [done|].
  destruct (JSON_parse raw) as [entry|]; [|done].
  destruct (entry_valid (now w) entry); [|done].
  by destruct (not_null (prop entry "data")).
Qed.

(** A hit is served without the network. *)
Lemma fetchWithCache_on_hit net key endpoint params ttl v w :
  result (getFromCache key w) = Normal v -> v <> VNull ->
  fetchWithCache net key endpoint params ttl w = getFromCache key w.
Proof.
  intros Hres Hv. rewrite getFromCache_result in Hres. injection Hres as Hres.
  rewrite fetchWithCache_spec. cbv zeta. rewrite Hres.
  apply not_null_iff in Hv. rewrite Hv.
  pose proof (getFromCache_result key w) as Hr. rewrite Hres in Hr.
  destruct (getFromCache key w) as [r w1]. simpl in *. by rewrite Hr.
Qed.

(** X7 (a hit never reaches the network).  When getFromCache(key) returns
    a payload other than null, fetchWithCache(key, ...) is that lookup and
    nothing more: same result, same final state, whatever the endpoint,
    the parameters, the ttl and the network are; no fetch is issued. *)
Theorem hit_served_without_network net key endpoint params ttl v w :
  result (getFromCache key w) = Normal v -> v <> VNull ->
  fetchWithCache net key endpoint params ttl w = getFromCache key w
  /\ List.filter is_fetch
       (events_since w (after (fetchWithCache net key endpoint params ttl w))) = [].
Proof.
  intros Hres Hv.
  rewrite (fetchWithCache_on_hit net key endpoint params ttl v w Hres Hv).
  split; [done|].
  rewrite (events_since_app _ _ _ (getFromCache_trace key w)).
  apply lookup_events_no_fetch.
Qed.

(** X14 (when fetchFromApi resolves).  fetchFromApi(url) resolves with
    data exactly when the network answers, the status is in the 2xx range
    and the body parses as JSON to data; a network failure, any other
    status and an unparsable body all reject. *)
Theorem fetchFromApi_resolves net url data w :
  result (fetchFromApi net url w) = Normal data
  <-> exists r, net url = Answered r /\ response_ok r = true
                /\ JSON_parse (body r) = Some data.
Proof.
  rewrite fetchFromApi_spec. simpl. unfold fetch_outcome.
  destruct (net url) as [e|r].
  - split; [done|]. by intros (r & Hr & _).
  - destruct (response_ok r) eqn:Hok; simpl.
    + destruct (JSON_parse (body r)) as [v|] eqn:Hp.
      * split; [intros [= <-]; eauto|]. intros (r' & [= <-] & _ & Hp'). congruence.
      * split; [done|]. intros (r' & [= <-] & _ & Hp'). congruence.
    + split.
      * destruct (nullish _); done.
      * intros (r' & [= <-] & Hok' & _). congruence.
Qed.

(** On a miss the outcome is the network's. *)
Lemma fetchWithCache_on_miss net key endpoint params ttl url w :
  result (getFromCache key w) = Normal VNull ->
  result (buildUrl endpoint params w) = Normal url ->
  result (fetchWithCache net key endpoint params ttl w)
  = result (fetchFromApi net url w)
  /\ List.filter is_fetch
       (events_since w (after (fetchWithCache net key endpoint params ttl w)))
     = [EFetch url]
  /\ List.filter is_setItem
       (events_since w (after (fetchWithCache net key endpoint params ttl w)))
     = []
  /\ forall data,
       result (fetchFromApi net url w) = Normal data ->
       memoryCache (after (fetchWithCache net key endpoint params ttl w)) !! key
       = Some (mkEntry data (now w) ttl)
       /\ timers (after (fetchWithCache net key endpoint params ttl w))
          = timers w ++ [mkPending key data ttl].
Proof.
  intros Hmiss Hurl.
  rewrite getFromCache_result in Hmiss. injection Hmiss as Hmiss.
  rewrite buildUrl_spec in Hurl. injection Hurl as <-.
  destruct (getFromCache_miss key w Hmiss) as (Hm & Ht & Hev & Hst & Hagain).
  destruct (getFromCache_keeps key w) as (Hnow & _).
  pose proof (lookup_events_no_fetch key w) as Hnf.
  assert (Htr : trace (after (fetchWithCache net key endpoint params ttl w))
                = trace w ++ (lookup_events key w ++ [EFetch (built_url endpoint params w)])).
  { rewrite fetchWithCache_spec. cbv zeta. rewrite Hmiss. simpl.
    destruct (fetch_outcome _ _); simpl; by rewrite getFromCache_trace, <- app_assoc. }
  rewrite (events_since_app _ _ _ Htr), !List.filter_app, Hnf, Hev.
  rewrite fetchWithCache_spec, fetchFromApi_spec. cbv zeta. rewrite Hmiss. simpl.
  split; [by destruct (fetch_outcome _ _)|]. split; [done|]. split; [done|].
  intros data ->. simpl. rewrite lookup_insert_eq, Hnow, Ht. done.
Qed.

(** The memory tier after a timer ran and the clock moved. *)
Lemma memory_hit_fresh key data ttl t w :
  memoryCache w !! key = Some (mkEntry data t (VNum ttl)) ->
  t <> 0 -> 0 < ttl -> now w - t < ttl -> data <> VNull ->
  getFromCache key w = (Normal data, w).
Proof.
  intros Hm Ht Httl Hlt Hdata. rewrite getFromCache_spec. cbv zeta.
  unfold memory_hit, memory_entry. rewrite Hm. simpl.
  rewrite entry_valid_fresh by done. apply not_null_iff in Hdata. by rewrite Hdata.
Qed.

(** A second call within the ttl is served from the memory tier. *)
Lemma repeat_call_served net net' key endpoint endpoint' params params' ttl ttl'
    data d n w :
  result (getFromCache key w) = Normal VNull ->
  result (fetchWithCache net key endpoint params (VNum ttl) w) = Normal data ->
  data <> VNull -> 0 < ttl -> now w <> 0 -> d < ttl ->
  fetchWithCache net' key endpoint' params' ttl'
    (advance d (run_timers n (after (fetchWithCache net key endpoint params (VNum ttl) w))))
  = (Normal data,
     advance d (run_timers n (after (fetchWithCache net key endpoint params (VNum ttl) w)))).
Proof.
  intros Hmiss Hload Hdata Httl Hnow Hd.
  destruct (fetchWithCache_on_miss net key endpoint params (VNum ttl)
              (built_url endpoint params w) w Hmiss eq_refl)
    as (Hres & _ & _ & Hcached).
  rewrite Hload in Hres. symmetry in Hres.
  destruct (Hcached data Hres) as [Hm _].
  set (w1 := after (fetchWithCache net key endpoint params (VNum ttl) w)) in *.
  assert (Hnow1 : now w1 = now w).
  { unfold w1. rewrite fetchWithCache_spec. cbv zeta.
    rewrite getFromCache_result in Hmiss. injection Hmiss as Hmiss. rewrite Hmiss.
    rewrite fetchFromApi_spec in Hres. simpl in Hres. rewrite Hres. simpl.
    apply getFromCache_keeps. }
  assert (Hhit : getFromCache key (advance d (run_timers n w1))
                 = (Normal data, advance d (run_timers n w1))).
  { apply (memory_hit_fresh key data ttl (now w)); try done.
    - simpl. by rewrite run_timers_memory.
    - simpl. rewrite run_timers_now, Hnow1. lia. }
  rewrite (fetchWithCache_on_hit net' key endpoint' params' ttl' data); [done| |done].
  by rewrite Hhit.
Qed.

(** X9 (a load is reused within its ttl).  After fetchWithCache has
    missed and loaded a payload other than null with ttl > 0, at a clock
    reading other than 0, every fetchWithCache call for the same key less
    than ttl milliseconds later returns that payload and leaves the state
    as it is, whether or not deferred writes have run in between and
    whatever endpoint, parameters, ttl and network the later call is
    given. *)
Theorem cache_hit_after_load net net' key endpoint endpoint' params params' ttl ttl'
    data d n w :
  result (getFromCache key w) = Normal VNull ->
  result (fetchWithCache net key endpoint params (VNum ttl) w) = Normal data ->
  data <> VNull -> 0 < ttl -> now w <> 0 -> d < ttl ->
  fetchWithCache net' key endpoint' params' ttl'
    (advance d (run_timers n (after (fetchWithCache net key endpoint params (VNum ttl) w))))
  = (Normal data,
     advance d (run_timers n (after (fetchWithCache net key endpoint params (VNum ttl) w)))).
Proof. apply repeat_call_served. Qed.

(** X6 (a promoted entry is served from memory).  When the memory tier
    misses and the persistent tier holds a valid entry with a payload
    other than null, the lookup that promotes it is followed by a lookup
    that returns the same payload and changes nothing: it is a memory hit,
    so localStorage is not read again. *)
Theorem promoted_entry_served_from_memory key raw data ts ttl w :
  result (getFromMemoryCache key w) = Normal VNull ->
  localStorage w !! storage_key key = Some raw ->
  raw <> "" ->
  JSON_parse raw = Some (mkEntry data ts (VNum ttl)) ->
  result (isCacheValid (mkEntry data ts (VNum ttl)) w) = Normal true ->
  data <> VNull -> now w <> 0 -> 0 < ttl ->
  getFromCache key (after (getFromCache key w))
  = (Normal data, after (getFromCache key w)).
Proof.
  intros Hmiss Hraw Hne Hparse Hvalid Hdata Hnow Httl.
  apply memory_miss_iff in Hmiss. apply isCacheValid_true in Hvalid.
  destruct (getFromCache_keeps key w) as (Hnow' & _).
  apply (memory_hit_fresh key data ttl (now w)); try done; [|lia].
  rewrite getFromCache_spec. cbv zeta.
  rewrite Hmiss, Hraw, (eqb_empty_false _ Hne), Hparse, Hvalid.
  change (prop (mkEntry data ts (VNum ttl)) "data") with data.
  apply not_null_iff in Hdata. rewrite Hdata. unfold promote. simpl.
  by rewrite lookup_insert_eq, evict_now.
Qed.

Lemma aged_lookup_misses key data ttl d1 d2 w :
  timers w = [] ->
  setItem_allowed (localStorage w) (storage_key key)
    (JSON_stringify (mkEntry data (now w + d1) (VNum ttl))) = true ->
  JSON_stringify (mkEntry data (now w + d1) (VNum ttl)) <> "" ->
  JSON_parse (JSON_stringify (mkEntry data (now w + d1) (VNum ttl)))
    = Some (mkEntry data (now w + d1) (VNum ttl)) ->
  0 <= d1 -> ttl <= d2 ->
  result (getFromCache key (written_then_aged key data ttl d1 d2 w)) = Normal VNull.
Proof.
  intros Htimers Hquota Hne Hparse Hd1 Hd2.
  rewrite (written_then_aged_accepted _ _ _ _ _ _ Htimers Hquota).
  rewrite getFromCache_result. simpl. unfold cache_answer, persistent_answer.
  rewrite !lookup_insert_eq. simpl.
  rewrite entry_valid_stale by lia. simpl.
  rewrite (eqb_empty_false _ Hne), Hparse.
  by rewrite entry_valid_stale by lia.
Qed.

(** X10 (no stale fallback).  Once an entry written by setInCache has
    aged past its ttl in both tiers, fetchWithCache resolves or rejects
    as the network request does: when the refresh fails the call rejects,
    the expired payload is not served in its place. *)
Theorem expired_entry_never_served net key endpoint params data ttl ttl' d1 d2 url w :
  timers w = [] ->
  setItem_allowed (localStorage w) (storage_key key)
    (JSON_stringify (mkEntry data (now w + d1) (VNum ttl))) = true ->
  JSON_stringify (mkEntry data (now w + d1) (VNum ttl)) <> "" ->
  JSON_parse (JSON_stringify (mkEntry data (now w + d1) (VNum ttl)))
    = Some (mkEntry data (now w + d1) (VNum ttl)) ->
  0 <= d1 -> ttl <= d2 ->
  result (buildUrl endpoint params (written_then_aged key data ttl d1 d2 w))
  = Normal url ->
  result (fetchWithCache net key endpoint params ttl'
            (written_then_aged key data ttl d1 d2 w))
  = result (fetchFromApi net url (written_then_aged key data ttl d1 d2 w)).
Proof.
  intros Htimers Hquota Hne Hparse Hd1 Hd2 Hurl.
  apply fetchWithCache_on_miss; [|done].
  by apply aged_lookup_misses.
Qed.

Lemma clearAllCache_lookup memoryOnly w k :
  localStorage (after (clearAllCache memoryOnly w)) !! k
  = if negb memoryOnly && String.prefix STORAGE_PREFIX k
    then None else localStorage w !! k.
Proof.
  rewrite clearAllCache_spec. simpl.
  destruct memoryOnly; simpl; [done|].
  rewrite removed_lookup. simpl.
  rewrite <- in_namespace_prefix.
  destruct (in_namespace k) eqn:Hns.
  - destruct (localStorage w !! k) as [v|] eqn:Hk; [|by destruct (bool_decide _)].
    rewrite bool_decide_eq_true_2; [done|].
    apply list_elem_of_In, filter_In. split; [|done].
    apply list_elem_of_In. unfold storage_keys.
    apply list_elem_of_fmap. exists (k, v). split; [done|].
    by apply elem_of_map_to_list.
  - rewrite bool_decide_eq_false_2; [done|].
    intros Hin. apply list_elem_of_In, filter_In in Hin as [_ Hin]. congruence.
Qed.

Lemma removed_now ks w : now (removed ks w) = now w.
Proof. revert w. induction ks as [|k ks IH]; intros w; [done|]. simpl. by rewrite IH. Qed.

Lemma removed_timers ks w : timers (removed ks w) = timers w.
Proof. revert w. induction ks as [|k ks IH]; intros w; [done|]. simpl. by rewrite IH. Qed.

Lemma clearAllCache_memory memoryOnly w :
  memoryCache (after (clearAllCache memoryOnly w)) = ∅.
Proof.
  rewrite clearAllCache_spec. simpl. destruct memoryOnly; [done|].
  by rewrite removed_memory.
Qed.

Lemma clearAllCache_now memoryOnly w : now (after (clearAllCache memoryOnly w)) = now w.
Proof.
  rewrite clearAllCache_spec. simpl. destruct memoryOnly; [done|].
  by rewrite removed_now.
Qed.

Lemma clearAllCache_timers memoryOnly w :
  timers (after (clearAllCache memoryOnly w)) = timers w.
Proof.
  rewrite clearAllCache_spec. simpl. destruct memoryOnly; [done|].
  by rewrite removed_timers.
Qed.

(** X11 (a full clear empties the cache).  In the state clearAllCache()
    leaves, getFromCache(key) returns null for every key, whatever the
    clock reads by then: nothing of either tier survives (a deferred write
    that was still pending is a later write, see X13). *)
Theorem lookup_after_full_clear_misses key t w :
  result (getFromCache key (with_now t (after (clearAllCache false w)))) = Normal VNull.
Proof.
  rewrite getFromCache_result. unfold cache_answer, persistent_answer, with_now.
  cbn [memoryCache localStorage now].
  rewrite clearAllCache_memory, lookup_empty, clearAllCache_lookup.
  by rewrite storage_key_in_namespace.
Qed.

Lemma cache_answer_ext key t mem mem' (st st' : gmap string string) :
  mem !! key = mem' !! key ->
  st !! storage_key key = st' !! storage_key key ->
  cache_answer key t mem st = cache_answer key t mem' st'.
Proof. intros Hm Hs. unfold cache_answer, persistent_answer. by rewrite Hm, Hs. Qed.

Lemma callback_frame p w :
  now (after (setInLocalStorage_callback p w)) = now w
  /\ memoryCache (after (setInLocalStorage_callback p w)) = memoryCache w
  /\ timers (after (setInLocalStorage_callback p w)) = timers w
  /\ forall k, k <> storage_key (pw_key p) ->
       localStorage (after (setInLocalStorage_callback p w)) !! k = localStorage w !! k.
Proof.
  rewrite setInLocalStorage_callback_spec. cbv zeta.
  destruct (setItem_allowed _ _ _); simpl; repeat split; auto.
  intros k Hne. by rewrite lookup_insert_ne.
Qed.

(** X2 (keys are independent).  For two different keys, writing one
    with setInCache, running its deferred persistent write, or looking it
    up does not change what getFromCache returns for the other. *)
Theorem other_keys_unaffected key key' data ttl w :
  key <> key' ->
  result (getFromCache key' (after (setInCache key data ttl w)))
  = result (getFromCache key' w)
  /\ result (getFromCache key'
               (after (setInLocalStorage_callback (mkPending key data ttl) w)))
     = result (getFromCache key' w)
  /\ result (getFromCache key' (after (getFromCache key w)))
     = result (getFromCache key' w).
Proof.
  intros Hne.
  assert (Hk : storage_key key' <> storage_key key)
    by (intros Heq; apply storage_key_inj in Heq; congruence).
  rewrite !getFromCache_result. split; [|split]; f_equal.
  - rewrite setInCache_spec. simpl. apply cache_answer_ext; [|done].
    by rewrite lookup_insert_ne.
  - destruct (callback_frame (mkPending key data ttl) w) as (-> & -> & _ & Hst).
    apply cache_answer_ext; [done|]. by apply Hst.
  - destruct (getFromCache_keeps key w) as (-> & _ & _ & Hm & Hst).
    apply cache_answer_ext; [apply Hm; congruence|by apply Hst].
Qed.

Lemma run_timer_single p w :
  timers w = [p] ->
  run_timer w = after (setInLocalStorage_callback p (with_timers [] w)).
Proof. intros H. unfold run_timer. by rewrite H. Qed.

(** X5 (the last write wins).  Of two setInCache calls for one key, the
    second determines the memory entry at once and, after both deferred
    writes have run in the order they were queued and the second was
    accepted, the persistent entry as well. *)
Theorem last_writer_wins key data1 ttl1 data2 ttl2 w :
  timers w = [] ->
  setItem_allowed
    (localStorage
       (run_timer (after (setInCache key data2 ttl2
                            (after (setInCache key data1 ttl1 w))))))
    (storage_key key) (JSON_stringify (mkEntry data2 (now w) ttl2)) = true ->
  memoryCache (after (setInCache key data2 ttl2 (after (setInCache key data1 ttl1 w))))
    !! key = Some (mkEntry data2 (now w) ttl2)
  /\ localStorage
       (run_timers 2 (after (setInCache key data2 ttl2
                               (after (setInCache key data1 ttl1 w)))))
       !! storage_key key
     = Some (JSON_stringify (mkEntry data2 (now w) ttl2)).
Proof.
  intros Htimers Hq. split.
  - rewrite !setInCache_spec. simpl. by rewrite lookup_insert_eq.
  - revert Hq.
    set (w2 := after (setInCache key data2 ttl2 (after (setInCache key data1 ttl1 w)))).
    assert (Ht2 : timers w2 = [mkPending key data1 ttl1; mkPending key data2 ttl2]).
    { unfold w2. rewrite !setInCache_spec. simpl. by rewrite Htimers. }
    assert (Hn2 : now w2 = now w) by (unfold w2; by rewrite !setInCache_spec).
    assert (H3 : run_timer w2
                 = after (setInLocalStorage_callback (mkPending key data1 ttl1)
                            (with_timers [mkPending key data2 ttl2] w2)))
      by (unfold run_timer; by rewrite Ht2).
    destruct (callback_frame (mkPending key data1 ttl1)
                (with_timers [mkPending key data2 ttl2] w2)) as (Hn3 & _ & Ht3 & _).
    rewrite <- H3 in Hn3, Ht3. simpl in Hn3, Ht3.
    intros Hq. change (run_timers 2 w2) with (run_timer (run_timer w2)).
    rewrite (run_timer_single (mkPending key data2 ttl2) (run_timer w2)) by done.
    rewrite setInLocalStorage_callback_spec. cbv zeta. simpl.
    rewrite Hn3, ?Hn2, Hq. simpl. by rewrite lookup_insert_eq.
Qed.

(** X4 (a ttl of zero or less caches nothing).  An entry written by
    setInCache with ttl <= 0 is never served by the memory tier: the
    first getFromMemoryCache, at the same or any later clock reading,
    returns null and deletes it. *)
Theorem non_positive_ttl_not_served key data ttl t w :
  ttl <= 0 -> now w <= t ->
  result (getFromMemoryCache key (with_now t (after (setInCache key data (VNum ttl) w))))
  = Normal VNull
  /\ memoryCache
       (after (getFromMemoryCache key
                 (with_now t (after (setInCache key data (VNum ttl) w))))) !! key
     = None.
Proof.
  intros Httl Ht. rewrite getFromMemoryCache_spec, setInCache_spec.
  unfold memory_entry. simpl. rewrite lookup_insert_eq. simpl.
  rewrite entry_valid_mkEntry.
  destruct (decide (ttl = 0)) as [->|Hne].
  - simpl. rewrite andb_false_r. simpl. by rewrite lookup_delete_eq.
  - rewrite (bool_decide_eq_false_2 (t - now w < ttl)) by lia.
    rewrite andb_false_r. simpl. by rewrite lookup_delete_eq.
Qed.

Lemma persisted_entry_served key data ts ttl raw w :
  memory_hit key w = false ->
  localStorage w !! storage_key key = Some raw ->
  raw <> "" ->
  JSON_parse raw = Some (mkEntry data ts (VNum ttl)) ->
  ts <> 0 -> 0 < ttl -> now w - ts < ttl ->
  result (getFromCache key w) = Normal data.
Proof.
  intros Hmiss Hraw Hne Hparse Hts Httl Hlt.
  rewrite getFromCache_result. unfold cache_answer, persistent_answer.
  unfold memory_hit, memory_entry in Hmiss. rewrite Hmiss, Hraw.
  rewrite (eqb_empty_false _ Hne), Hparse. by rewrite entry_valid_fresh.
Qed.

Lemma memory_hit_empty key w : memoryCache w !! key = None -> memory_hit key w = false.
Proof. intros H. unfold memory_hit, memory_entry. by rewrite H. Qed.

Lemma deferred_write_lands key data ttl d1 w :
  timers w = [] ->
  setItem_allowed (localStorage w) (storage_key key)
    (JSON_stringify (mkEntry data (now w + d1) (VNum ttl))) = true ->
  run_timer (advance d1 (after (setInCache key data (VNum ttl) w))) =
    mkWorld (now w + d1) (apiKey w)
      (<[key := mkEntry data (now w) (VNum ttl)]> (memoryCache w))
      (<[storage_key key := JSON_stringify (mkEntry data (now w + d1) (VNum ttl))]>
         (localStorage w))
      []
      (trace w ++ [ESetItem (storage_key key)
                     (JSON_stringify (mkEntry data (now w + d1) (VNum ttl)))]).
Proof.
  intros Htimers Hquota.
  unfold advance, run_timer. rewrite setInCache_spec. simpl.
  rewrite Htimers. simpl. rewrite setInLocalStorage_callback_spec. simpl.
  by rewrite Hquota.
Qed.

(** X12 (a memory-only clear keeps the persistent copy).  After an
    entry's deferred write has been accepted, clearAllCache(true) does
    not lose it: a lookup less than ttl milliseconds after the deferred
    write returns the payload again and puts it back into the memory
    tier, stamped with the time of the lookup. *)
Theorem memory_only_clear_keeps_persistent key data ttl d1 d2 w :
  timers w = [] ->
  setItem_allowed (localStorage w) (storage_key key)
    (JSON_stringify (mkEntry data (now w + d1) (VNum ttl))) = true ->
  JSON_stringify (mkEntry data (now w + d1) (VNum ttl)) <> "" ->
  JSON_parse (JSON_stringify (mkEntry data (now w + d1) (VNum ttl)))
    = Some (mkEntry data (now w + d1) (VNum ttl)) ->
  data <> VNull -> now w + d1 <> 0 -> 0 < ttl -> d2 < ttl ->
  result (getFromCache key
            (advance d2 (after (clearAllCache true
               (run_timer (advance d1 (after (setInCache key data (VNum ttl) w))))))))
  = Normal data
  /\ memoryCache
       (after (getFromCache key
            (advance d2 (after (clearAllCache true
               (run_timer (advance d1 (after (setInCache key data (VNum ttl) w)))))))))
       !! key = Some (mkEntry data (now w + d1 + d2) (VNum ttl)).
Proof.
  intros Htimers Hquota Hne Hparse Hdata Hts Httl Hd2.
  rewrite (deferred_write_lands _ _ _ _ _ Htimers Hquota), clearAllCache_spec. simpl.
  set (e := mkEntry data (now w + d1) (VNum ttl)) in *.
  assert (Hv : entry_valid (now w + d1 + d2) e = true)
    by (apply entry_valid_fresh; lia).
  rewrite getFromCache_spec. cbv zeta.
  rewrite memory_hit_empty by (simpl; apply lookup_empty). simpl.
  rewrite lookup_insert_eq, (eqb_empty_false _ Hne), Hparse, Hv.
  change (prop e "data") with data. change (prop e "ttl") with (VNum ttl).
  apply not_null_iff in Hdata. rewrite Hdata. unfold promote. simpl.
  rewrite lookup_insert_eq. split; [done|]. by rewrite evict_now.
Qed.

(** X13 (a clear does not cancel a pending write).  clearAllCache,
    memory-only or full, leaves the deferred persistent write of an
    earlier setInCache queued; once that write has run and been accepted
    the entry is in localStorage again and getFromCache serves it until
    its ttl has elapsed. *)
Theorem pending_write_survives_clear key data ttl d1 d2 memoryOnly w :
  timers w = [] ->
  setItem_allowed
    (localStorage (after (clearAllCache memoryOnly
                            (after (setInCache key data (VNum ttl) w)))))
    (storage_key key)
    (JSON_stringify (mkEntry data (now w + d1) (VNum ttl))) = true ->
  JSON_stringify (mkEntry data (now w + d1) (VNum ttl)) <> "" ->
  JSON_parse (JSON_stringify (mkEntry data (now w + d1) (VNum ttl)))
    = Some (mkEntry data (now w + d1) (VNum ttl)) ->
  now w + d1 <> 0 -> 0 < ttl -> d2 < ttl ->
  timers (after (clearAllCache memoryOnly (after (setInCache key data (VNum ttl) w))))
  = [mkPending key data (VNum ttl)]
  /\ result (getFromCache key
               (advance d2 (run_timer (advance d1
                  (after (clearAllCache memoryOnly
                            (after (setInCache key data (VNum ttl) w))))))))
     = Normal data.
Proof.
  intros Htimers Hquota Hne Hparse Hts Httl Hd2.
  set (wc := after (clearAllCache memoryOnly (after (setInCache key data (VNum ttl) w))))
    in *.
  assert (Ht : timers wc = [mkPending key data (VNum ttl)]).
  { unfold wc. rewrite clearAllCache_timers, setInCache_spec. simpl. by rewrite Htimers. }
  assert (Hn : now wc = now w).
  { unfold wc. by rewrite clearAllCache_now, setInCache_spec. }
  assert (Hm : memoryCache wc = ∅) by apply clearAllCache_memory.
  split; [done|].
  rewrite (run_timer_single (mkPending key data (VNum ttl))) by done.
  rewrite setInLocalStorage_callback_spec. cbv zeta. simpl. rewrite Hn, Hquota. simpl.
  apply (persisted_entry_served key data (now w + d1) ttl
           (JSON_stringify (mkEntry data (now w + d1) (VNum ttl)))); try done.
  - apply memory_hit_empty. simpl. by rewrite Hm.
  - simpl. by rewrite lookup_insert_eq.
  - simpl. lia.
Qed.

(** X16 (getMovieCredits and getMovieDetails share a cache key).  The key
    of getMovieCredits(id) is the key of getMovieDetails(id,
    {appendToResponse: 'credits'}).  So after getMovieCredits has loaded
    the credits of a movie, a getMovieDetails call for the same movie with
    that option, made within the 24 hours of the ttl, is served from the
    cache: it resolves with the credits object, issues no request and
    leaves the state as it is. *)
Theorem credits_key_shared net net' movieId credits d n w :
  result (getFromCache (createCacheKey [VStr "movie"; movieId; VStr "credits"]) w)
  = Normal VNull ->
  result (getMovieCredits net movieId w) = Normal credits ->
  credits <> VNull -> now w <> 0 -> d < CACHE_TTL_CREDITS ->
  getMovieDetails net' movieId (VObj [("appendToResponse", VStr "credits")])
    (advance d (run_timers n (after (getMovieCredits net movieId w))))
  = (Normal credits, advance d (run_timers n (after (getMovieCredits net movieId w)))).
Proof.
  intros Hmiss Hload Hdata Hnow Hd.
  change (getMovieDetails net' movieId (VObj [("appendToResponse", VStr "credits")]))
    with (fetchWithCache net' (createCacheKey [VStr "movie"; movieId; VStr "credits"])
            ("/movie/" +:+ to_string movieId) [("append_to_response", VStr "credits")]
            (VNum CACHE_TTL_MOVIE_DETAILS)).
  by apply repeat_call_served.
Qed.

End Composition.

(** ** fetchWithCache across its suspension *)

Section Suspension.
Context `{RT : Runtime}.

Lemma fetchWithCache_await_spec net key endpoint params ttl during w :
  fetchWithCache_await net key endpoint params ttl during w =
    let url := built_url endpoint params w in
    let wr := elapse during (suspended key url w) in
    if not_null (cache_answer key (now w) (memoryCache w) (localStorage w))
    then (Normal (cache_answer key (now w) (memoryCache w) (localStorage w)),
          after (getFromCache key w))
    else
      match fetch_outcome net url with
      | Normal data => (Normal data, after (setInCache key data ttl wr))
      | Throw e => (Throw e, wr)
      end.
Proof.
  unfold fetchWithCache_await, suspended, bind at 1.
  pose proof (getFromCache_result key w) as Hr.
  destruct (getFromCache key w) as [r w1] eqn:Hg. simpl in Hr. subst r. simpl.
  destruct (not_null _); [done|].
  unfold bind. rewrite buildUrl_spec.
  rewrite (built_url_apiKey endpoint params w w1)
    by (by rewrite <- (getFromCache_apiKey key w), Hg).
  unfold await_fetchFromApi. rewrite fetchFromApi_spec.
  by destruct (fetch_outcome _ _).
Qed.

(** With nothing running during the await the call is the atomic one. *)
Lemma fetchWithCache_await_nil net key endpoint params ttl w :
  fetchWithCache_await net key endpoint params ttl [] w
  = fetchWithCache net key endpoint params ttl w.
Proof. by rewrite fetchWithCache_await_spec, fetchWithCache_spec. Qed.

(** What runs during the await has no influence on the result. *)
Lemma fetchWithCache_await_result net key endpoint params ttl during w :
  result (fetchWithCache_await net key endpoint params ttl during w)
  = result (fetchWithCache net key endpoint params ttl w).
Proof.
  rewrite fetchWithCache_await_spec, fetchWithCache_spec. cbv zeta.
  destruct (not_null _); [done|]. by destruct (fetch_outcome _ _).
Qed.

Lemma no_setItem_no_write k evs :
  List.filter is_setItem evs = [] -> List.filter (writes_to k) evs = [].
Proof.
  induction evs as [|e evs IH]; [done|]. simpl.
  destruct e; simpl; try done. 
Qed.

Lemma lookup_events_no_setItem key w : List.filter is_setItem (lookup_events key w) = [].
Proof.
  unfold lookup_events. destruct (memory_hit key w); [done|].
  destruct (localStorage w !! storage_key key) as [raw|]; [|done].
  destruct (String.eqb raw ""); [done|].
  destruct (JSON_parse raw) as [entry|]; [|done].
  destruct (entry_valid (now w) entry); [|done].
  by destruct (not_null (prop entry "data")).
Qed.

Lemma removed_trace ks w : trace (removed ks w) = trace w ++ map ERemoveItem ks.
Proof.
  revert w. induction ks as [|k ks IH]; intros w; simpl; [by rewrite app_nil_r|].
  rewrite IH. simpl. by rewrite <- app_assoc.
Qed.

Lemma no_write_among_removals k ks :
  List.filter (writes_to k) (map ERemoveItem ks) = [].
Proof. by induction ks. Qed.

Lemma storage_key_eqb key key' :
  String.eqb key' key = false -> String.eqb (storage_key key') (storage_key key) = false.
Proof.
  rewrite !String.eqb_neq. intros Hne Heq. by apply Hne, storage_key_inj.
Qed.

Lemma run_timer_cons p rest w :
  timers w = p :: rest ->
  run_timer w = after (setInLocalStorage_callback p (with_timers rest w)).
Proof. intros H. unfold run_timer. by rewrite H. Qed.

(** An activity that does not store the key queues no write for it. *)
Lemma perform_none_pending key a w :
  stores key a = false -> none_pending key w = true ->
  none_pending key (perform a w) = true.
Proof.
  intros Ha Hp. unfold none_pending in *. destruct a; cbn [perform stores] in *.
  - done.
  - destruct (timers w) as [|p rest] eqn:Ht.
    + unfold run_timer. by rewrite Ht, Ht.
    + rewrite (run_timer_cons p rest w Ht).
      destruct (callback_frame p (with_timers rest w)) as (_ & _ & -> & _).
      simpl in *. by apply andb_prop in Hp as [_ Hp].
  - by destruct (getFromCache_keeps key0 w) as (_ & -> & _).
  - rewrite setInCache_spec. simpl. rewrite forallb_app, Hp. simpl. by rewrite Ha.
  - by rewrite clearAllCache_timers.
  - done.
Qed.

Lemma absent_memory_miss key w t :
  (forall t, cache_answer key t (memoryCache w) (localStorage w) = VNull) ->
  persistent_answer key t (localStorage w) = VNull.
Proof.
  intros H. specialize (H t). unfold cache_answer in H. cbv zeta in H.
  destruct (entry_valid t _ && not_null _) eqn:Hhit; [|done].
  apply andb_prop in Hhit as [_ Hnn]. rewrite H in Hnn. done.
Qed.

(** An activity that does not store the key leaves it absent. *)
Lemma perform_absent key a w :
  stores key a = false -> absent key w -> absent key (perform a w).
Proof.
  intros Ha [Hans Hp]. split; [|by apply perform_none_pending].
  intros t. destruct a; cbn [perform stores] in *.
  - apply Hans.
  - destruct (timers w) as [|p rest] eqn:Ht.
    + unfold run_timer. rewrite Ht. apply Hans.
    + rewrite (run_timer_cons p rest w Ht).
      unfold none_pending in Hp. rewrite Ht in Hp. simpl in Hp.
      apply andb_prop in Hp as [Hpk _]. apply negb_true_iff in Hpk.
      destruct (callback_frame p (with_timers rest w)) as (_ & -> & _ & Hst).
      rewrite <- (Hans t). apply cache_answer_ext; [done|].
      apply Hst. apply String.eqb_neq. rewrite String.eqb_sym. by apply storage_key_eqb.
  - destruct (decide (key0 = key)) as [->|Hne].
    + by apply (getFromCache_miss key w (Hans (now w))).
    + destruct (getFromCache_keeps key0 w) as (_ & _ & _ & Hm & Hst).
      rewrite <- (Hans t). apply cache_answer_ext; [apply Hm; congruence|].
      apply Hst. intros Heq. apply storage_key_inj in Heq. congruence.
  - rewrite setInCache_spec. simpl. rewrite <- (Hans t).
    apply cache_answer_ext; [|done]. apply lookup_insert_ne.
    by apply String.eqb_neq.
  - unfold cache_answer. cbv zeta.
    rewrite clearAllCache_memory, lookup_empty. simpl.
    unfold persistent_answer. rewrite clearAllCache_lookup, storage_key_in_namespace.
    destruct memoryOnly; simpl; [|done].
    apply (absent_memory_miss key w t Hans).
  - apply Hans.
Qed.

(** While no write for the key is queued, no activity writes its item. *)
Lemma perform_trace key a w :
  none_pending key w = true ->
  exists evs, trace (perform a w) = trace w ++ evs
              /\ List.filter (writes_to (storage_key key)) evs = [].
Proof.
  intros Hp. destruct a; cbn [perform].
  - exists []. by rewrite app_nil_r.
  - destruct (timers w) as [|p rest] eqn:Ht.
    + exists []. unfold run_timer. by rewrite Ht, app_nil_r.
    + rewrite (run_timer_cons p rest w Ht).
      unfold none_pending in Hp. rewrite Ht in Hp. simpl in Hp.
      apply andb_prop in Hp as [Hpk _]. apply negb_true_iff in Hpk.
      apply storage_key_eqb in Hpk.
      rewrite setInLocalStorage_callback_spec. cbv zeta.
      destruct (setItem_allowed _ _ _).
      * exists [ESetItem (storage_key (pw_key p))
                  (JSON_stringify (mkEntry (pw_data p) (now w) (pw_ttl p)))].
        split; [done|]. cbn [List.filter writes_to]. by rewrite Hpk.
      * exists [ESetItem (storage_key (pw_key p))
                  (JSON_stringify (mkEntry (pw_data p) (now w) (pw_ttl p)));
                EWarn (pw_key p)].
        split; [cbn [after snd log trace with_timers]; by rewrite <- app_assoc|].
        cbn [List.filter writes_to]. by rewrite Hpk.
  - exists (lookup_events key0 w). split; [apply getFromCache_trace|].
    apply no_setItem_no_write, lookup_events_no_setItem.
  - exists []. by rewrite setInCache_spec, app_nil_r.
  - rewrite clearAllCache_spec. simpl. destruct memoryOnly.
    + exists []. by rewrite app_nil_r.
    + exists (map ERemoveItem (List.filter in_namespace (storage_keys w))).
      split; [by rewrite removed_trace|]. apply no_write_among_removals.
  - by exists [EFetch url].
Qed.

(** As long as nobody stores the key it stays absent, and its item is not
    written. *)
Lemma elapse_absent key during w :
  leaves_alone key during = true -> absent key w ->
  absent key (elapse during w)
  /\ exists evs, trace (elapse during w) = trace w ++ evs
                 /\ List.filter (writes_to (storage_key key)) evs = [].
Proof.
  revert w. induction during as [|a during IH]; intros w Hq Habs.
  - split; [done|]. exists []. by rewrite app_nil_r.
  - simpl in Hq. apply andb_prop in Hq as [Ha Hq]. apply negb_true_iff in Ha.
    destruct (perform_trace key a w (proj2 Habs)) as (evs1 & Htr1 & Hf1).
    destruct (IH (perform a w) Hq (perform_absent key a w Ha Habs))
      as (Habs' & evs2 & Htr2 & Hf2).
    split; [exact Habs'|]. exists (evs1 ++ evs2). split.
    + change (elapse (a :: during) w) with (elapse during (perform a w)).
      by rewrite Htr2, Htr1, <- app_assoc.
    + by rewrite List.filter_app, Hf1, Hf2.
Qed.

(** A lookup that misses leaves the key absent unless a write for it is
    queued. *)
Lemma suspended_absent key url w :
  cache_answer key (now w) (memoryCache w) (localStorage w) = VNull ->
  none_pending key w = true -> absent key (suspended key url w).
Proof.
  intros Hmiss Hp.
  destruct (getFromCache_miss key w Hmiss) as (_ & Ht & _ & _ & Hagain).
  split; [exact Hagain|]. unfold none_pending, suspended. simpl. by rewrite Ht.
Qed.

Lemma suspended_trace key url w :
  trace (suspended key url w) = trace w ++ (lookup_events key w ++ [EFetch url]).
Proof. unfold suspended. simpl. by rewrite getFromCache_trace, <- app_assoc. Qed.

(** C5 (no caching of failures), as the code has it.  When the lookup
    misses, so that the load is invoked, and fetchFromApi rejects with an
    error, fetchWithCache rejects with that same error, whatever runs
    while the request is in flight, and the call itself writes to neither
    tier: up to the await it queues no deferred write, calls setItem not
    once and only lets the tiers lose the stale entries the lookup
    evicted, and once it resumes it adds nothing to the state it finds.
    When no deferred write for the key was queued at the start and nobody
    stores the key during the await, no setItem on the key's item occurs
    during the call, and a later getFromCache(key) returns absent for as
    long as nobody stores the key, whatever else runs in between. *)
Theorem failed_load_not_cached net key endpoint params ttl url e during w :
  result (getFromCache key w) = Normal VNull ->
  result (buildUrl endpoint params w) = Normal url ->
  result (fetchFromApi net url w) = Throw e ->
  result (fetchWithCache_await net key endpoint params ttl during w) = Throw e
  /\ after (fetchWithCache_await net key endpoint params ttl during w)
     = elapse during (suspended key url w)
  /\ timers (suspended key url w) = timers w
  /\ memoryCache (suspended key url w) ⊆ memoryCache w
  /\ localStorage (suspended key url w) ⊆ localStorage w
  /\ List.filter is_setItem (events_since w (suspended key url w)) = []
  /\ (none_pending key w = true -> leaves_alone key during = true ->
      List.filter (writes_to (storage_key key))
        (events_since w
           (after (fetchWithCache_await net key endpoint params ttl during w))) = []
      /\ forall later, leaves_alone key later = true ->
           result (getFromCache key
                     (elapse later
                        (after (fetchWithCache_await net key endpoint params ttl
                                  during w))))
           = Normal VNull).
Proof.
  intros Hmiss Hurl Hload.
  rewrite getFromCache_result in Hmiss. injection Hmiss as Hmiss.
  rewrite buildUrl_spec in Hurl. injection Hurl as <-.
  rewrite fetchFromApi_spec in Hload. simpl in Hload.
  destruct (getFromCache_miss key w Hmiss) as (Hm & Ht & Hev & Hst & Hagain).
  rewrite fetchWithCache_await_spec. cbv zeta. rewrite Hmiss, Hload. simpl.
  split; [done|]. split; [done|].
  split; [done|].
  split; [unfold suspended; simpl; rewrite Hm; apply evict_subseteq|].
  split; [unfold suspended; simpl; destruct Hst as [-> | ->];
          [done|apply delete_subseteq]|].
  split.
  { rewrite (events_since_app _ _ _ (suspended_trace key _ w)).
    by rewrite List.filter_app, Hev. }
  intros Hp Hq.
  destruct (elapse_absent key during _ Hq
              (suspended_absent key (built_url endpoint params w) w Hmiss Hp))
    as (Habs & evs & Htr & Hf).
  split.
  - rewrite suspended_trace, <- app_assoc in Htr.
    rewrite (events_since_app _ _ _ Htr), !List.filter_app, Hf.
    by rewrite (no_setItem_no_write _ _ Hev).
  - intros later Hlater.
    destruct (elapse_absent key later _ Hlater Habs) as ([Hans _] & _).
    rewrite getFromCache_result. f_equal. apply Hans.
Qed.

(** X8 (a miss is answered by the network alone).  When getFromCache(key)
    returns null, fetchWithCache resolves or rejects exactly as
    fetchFromApi does on the URL buildUrl gives, whatever runs while the
    request is in flight.  Up to the await the call issues one fetch and
    calls setItem not once.  When the load fails the call leaves the
    state as it finds it on resuming.  When the load succeeds the call
    adds to the state it finds on resuming a memory entry for the key,
    stamped with the time of the resumption and carrying the given ttl,
    and one deferred persistent write, queued behind those pending at
    that moment; it writes nothing to localStorage itself and logs no
    further event. *)
Theorem miss_answered_by_network net key endpoint params ttl url during w :
  result (getFromCache key w) = Normal VNull ->
  result (buildUrl endpoint params w) = Normal url ->
  result (fetchWithCache_await net key endpoint params ttl during w)
  = result (fetchFromApi net url w)
  /\ List.filter is_fetch (events_since w (suspended key url w)) = [EFetch url]
  /\ List.filter is_setItem (events_since w (suspended key url w)) = []
  /\ (forall e,
        result (fetchFromApi net url w) = Throw e ->
        after (fetchWithCache_await net key endpoint params ttl during w)
        = elapse during (suspended key url w))
  /\ forall data,
       result (fetchFromApi net url w) = Normal data ->
       memoryCache (after (fetchWithCache_await net key endpoint params ttl during w))
       = <[key := mkEntry data (now (elapse during (suspended key url w))) ttl]>
           (memoryCache (elapse during (suspended key url w)))
       /\ timers (after (fetchWithCache_await net key endpoint params ttl during w))
          = timers (elapse during (suspended key url w)) ++ [mkPending key data ttl]
       /\ localStorage
            (after (fetchWithCache_await net key endpoint params ttl during w))
          = localStorage (elapse during (suspended key url w))
       /\ trace (after (fetchWithCache_await net key endpoint params ttl during w))
          = trace (elapse during (suspended key url w))
       /\ now (after (fetchWithCache_await net key endpoint params ttl during w))
          = now (elapse during (suspended key url w)).
Proof.
  intros Hmiss Hurl.
  rewrite getFromCache_result in Hmiss. injection Hmiss as Hmiss.
  rewrite buildUrl_spec in Hurl. injection Hurl as <-.
  destruct (getFromCache_miss key w Hmiss) as (_ & _ & Hev & _).
  rewrite (events_since_app _ _ _ (suspended_trace key _ w)), !List.filter_app.
  rewrite Hev, lookup_events_no_fetch.
  rewrite fetchWithCache_await_spec, fetchFromApi_spec. cbv zeta. rewrite Hmiss.
  cbn [negb result fst].
  split; [by destruct (fetch_outcome _ _)|]. split; [done|]. split; [done|].
  split.
  - by intros e ->.
  - intros data ->. by rewrite setInCache_spec.
Qed.

End Suspension.

(** ** The query buildUrl serialises *)

Section Url.
Context `{RT : Runtime}.

Lemma buildUrl_query endpoint params w :
  buildUrl endpoint params w
  = (Normal (URL_toString (BASE_URL +:+ endpoint) (url_query params w)), w).
Proof. reflexivity. Qed.

Lemma eqb_string_true (a b : string) : String.eqb a b = true <-> a = b.
Proof. apply String.eqb_eq. Qed.

Lemma filter_other_elem k (l : list (string * string)) k' v' :
  (k', v') ∈ List.filter (fun kv => negb (String.eqb (fst kv) k)) l
  <-> k' <> k /\ (k', v') ∈ l.
Proof.
  rewrite !list_elem_of_In, filter_In. simpl.
  rewrite negb_true_iff, String.eqb_neq. tauto.
Qed.

Lemma searchParams_set_elem k v l k' v' :
  (k', v') ∈ searchParams_set k v l ->
  (k' = k /\ v' = v) \/ (k' <> k /\ (k', v') ∈ l).
Proof.
  induction l as [|[a b] l IH]; simpl.
  - intros [= -> ->]%list_elem_of_singleton. by left.
  - destruct (String.eqb a k) eqn:Hak.
    + apply String.eqb_eq in Hak as ->.
      intros [[= -> ->]|Hin]%elem_of_cons; [by left|].
      apply filter_other_elem in Hin as [Hne Hin]. right. split; [done|].
      by apply elem_of_cons; right.
    + apply String.eqb_neq in Hak.
      intros [[= -> ->]|Hin]%elem_of_cons.
      * right. split; [done|]. by apply elem_of_cons; left.
      * destruct (IH Hin) as [?|[? ?]]; [by left|]. right. split; [done|].
        by apply elem_of_cons; right.
Qed.

Lemma searchParams_set_here k v l : (k, v) ∈ searchParams_set k v l.
Proof.
  induction l as [|[a b] l IH]; simpl; [by apply list_elem_of_singleton|].
  destruct (String.eqb a k); apply elem_of_cons; [by left|by right].
Qed.

Lemma searchParams_set_keeps k v l k' v' :
  k' <> k -> (k', v') ∈ l -> (k', v') ∈ searchParams_set k v l.
Proof.
  intros Hne. induction l as [|[a b] l IH]; simpl; [by intros ?%elem_of_nil|].
  intros [[= <- <-]|Hin]%elem_of_cons.
  - rewrite (proj2 (String.eqb_neq _ _) Hne). by apply elem_of_cons; left.
  - destruct (String.eqb a k) eqn:Hak.
    + apply elem_of_cons; right. by apply filter_other_elem.
    + apply elem_of_cons; right. by apply IH.
Qed.

Lemma searchParams_set_name k v l x :
  x ∈ (searchParams_set k v l).*1 <-> x = k \/ x ∈ l.*1.
Proof.
  rewrite !list_elem_of_fmap. split.
  - intros ([k' v'] & -> & Hin). simpl.
    destruct (searchParams_set_elem _ _ _ _ _ Hin) as [[-> _]|[_ Hl]]; [by left|].
    right. by exists (k', v').
  - intros [->|([k' v'] & -> & Hin)].
    + exists (k, v). split; [done|]. apply searchParams_set_here.
    + simpl. destruct (decide (k' = k)) as [->|Hne].
      * exists (k, v). split; [done|]. apply searchParams_set_here.
      * exists (k', v'). split; [done|]. by apply searchParams_set_keeps.
Qed.

Lemma NoDup_filter_names k (l : list (string * string)) :
  NoDup l.*1 -> NoDup (List.filter (fun kv => negb (String.eqb (fst kv) k)) l).*1.
Proof.
  induction l as [|[a b] l IH]; simpl; [done|].
  intros [Hnin Hnd]%NoDup_cons.
  destruct (negb (String.eqb a k)); simpl; [|by apply IH].
  apply NoDup_cons. split; [|by apply IH].
  intros ([a' b'] & Ha & Hin)%list_elem_of_fmap. simpl in Ha. subst a'.
  apply filter_other_elem in Hin as [_ Hin].
  apply Hnin, list_elem_of_fmap. by exists (a, b').
Qed.

Lemma searchParams_set_NoDup k v l :
  NoDup l.*1 -> NoDup (searchParams_set k v l).*1.
Proof.
  induction l as [|[a b] l IH]; simpl.
  - intros _. apply NoDup_singleton.
  - intros [Hnin Hnd]%NoDup_cons.
    destruct (String.eqb a k) eqn:Hak; simpl.
    + apply NoDup_cons. split; [|by apply NoDup_filter_names].
      intros ([a' b'] & Ha & Hin)%list_elem_of_fmap. simpl in Ha. subst a'.
      by apply filter_other_elem in Hin as [Hne _].
    + apply String.eqb_neq in Hak.
      apply NoDup_cons. split; [|by apply IH].
      intros [->|Hin]%searchParams_set_name; [done|]. by apply Hnin.
Qed.

Lemma fold_set_param_NoDup params acc :
  NoDup acc.*1 -> NoDup (fold_left set_param params acc).*1.
Proof.
  revert acc. induction params as [|[k x] params IH]; intros acc Hnd; [done|].
  simpl. apply IH. unfold set_param. simpl.
  destruct (nullish x); simpl; [done|]. by apply searchParams_set_NoDup.
Qed.

Lemma fold_set_param_name params acc x :
  x ∈ (fold_left set_param params acc).*1
  <-> x ∈ acc.*1 \/ exists v, (x, v) ∈ params /\ nullish v = false.
Proof.
  revert acc. induction params as [|[k v] params IH]; intros acc; simpl.
  - split; [by left|]. intros [?|(v & Hin & _)]; [done|]. by apply elem_of_nil in Hin.
  - rewrite IH. unfold set_param. simpl. destruct (nullish v) eqn:Hv; simpl.
    + split.
      * intros [?|(v' & Hin & Hn)]; [by left|]. right. exists v'.
        split; [by apply elem_of_cons; right|done].
      * intros [?|(v' & [[= -> ->]|Hin]%elem_of_cons & Hn)]; [by left|congruence|].
        right. by exists v'.
    + rewrite searchParams_set_name. split.
      * intros [[->|?]|(v' & Hin & Hn)]; [|by left|].
        -- right. exists v. split; [by apply elem_of_cons; left|done].
        -- right. exists v'. split; [by apply elem_of_cons; right|done].
      * intros [?|(v' & [[= -> ->]|Hin]%elem_of_cons & Hn)].
        -- left. by right.
        -- left. by left.
        -- right. by exists v'.
Qed.

(** A pair survives the loop when no entry of its name is written. *)
Lemma fold_set_param_keeps params acc k v :
  (forall x, (k, x) ∈ params -> nullish x = true) ->
  (k, v) ∈ acc -> (k, v) ∈ fold_left set_param params acc.
Proof.
  revert acc. induction params as [|[k' x] params IH]; intros acc Hall Hin; [done|].
  simpl. apply IH.
  - intros y Hy. apply Hall. by apply elem_of_cons; right.
  - unfold set_param. simpl. destruct (nullish x) eqn:Hx; simpl; [done|].
    apply searchParams_set_keeps; [|done].
    intros ->. specialize (Hall x). rewrite Hall in Hx; [done|].
    by apply elem_of_cons; left.
Qed.

Lemma fold_set_param_value params acc k x :
  NoDup params.*1 -> (k, x) ∈ params -> nullish x = false ->
  (k, to_string x) ∈ fold_left set_param params acc.
Proof.
  revert acc. induction params as [|[k' x'] params IH]; intros acc Hnd Hin Hx.
  - by apply elem_of_nil in Hin.
  - simpl in Hnd. apply NoDup_cons in Hnd as [Hnin Hnd]. simpl.
    apply elem_of_cons in Hin as [[= -> ->]|Hin].
    + apply fold_set_param_keeps.
      * intros y Hy. exfalso. apply Hnin, list_elem_of_fmap. by exists (k', y).
      * unfold set_param. simpl. rewrite Hx. simpl. apply searchParams_set_here.
    + by apply IH.
Qed.

Lemma own_property_nullish k (params : list (string * JsValue)) :
  (forall x, (k, x) ∈ params -> nullish x = true) ->
  truthy (own_property k params) = false.
Proof.
  induction params as [|[a b] params IH]; intros Hall; [done|]. simpl.
  destruct (String.eqb a k) eqn:Hak.
  - apply String.eqb_eq in Hak as ->.
    specialize (Hall b (proj2 (elem_of_cons _ _ _) (or_introl eq_refl))).
    by destruct b.
  - apply IH. intros x Hx. apply Hall. by apply elem_of_cons; right.
Qed.

Lemma own_property_truthy k (params : list (string * JsValue)) :
  truthy (own_property k params) = true ->
  exists x, (k, x) ∈ params /\ nullish x = false.
Proof.
  induction params as [|[a b] params IH]; [done|]. simpl.
  destruct (String.eqb a k) eqn:Hak.
  - apply String.eqb_eq in Hak as ->. intros Ht. exists b.
    split; [by apply elem_of_cons; left|by destruct b].
  - intros Ht. destruct (IH Ht) as (x & Hin & Hx). exists x.
    split; [by apply elem_of_cons; right|done].
Qed.

(** X15 (the query buildUrl sends).  buildUrl never throws and leaves
    the state alone.  The URL it serialises has the base address followed
    by the endpoint and a query in which no parameter name occurs twice;
    api_key and language are always present; every other name comes from
    a parameter whose value is neither null nor undefined, and such a
    parameter is sent with its value converted to a string; api_key
    carries the configured key and language the default en-US unless the
    caller's parameters override them. *)
Theorem buildUrl_query_shape endpoint params w :
  buildUrl endpoint params w
  = (Normal (URL_toString (BASE_URL +:+ endpoint) (url_query params w)), w)
  /\ NoDup (url_query params w).*1
  /\ "api_key" ∈ (url_query params w).*1
  /\ "language" ∈ (url_query params w).*1
  /\ (forall k, k ∈ (url_query params w).*1 ->
        k = "api_key" \/ k = "language"
        \/ exists x, (k, x) ∈ params /\ nullish x = false)
  /\ (NoDup params.*1 ->
      forall k x, (k, x) ∈ params -> nullish x = false ->
                  (k, to_string x) ∈ url_query params w)
  /\ ((forall x, ("api_key", x) ∈ params -> nullish x = true) ->
      ("api_key", apiKey w) ∈ url_query params w)
  /\ ((forall x, ("language", x) ∈ params -> nullish x = true) ->
      ("language", DEFAULT_LANGUAGE) ∈ url_query params w).
Proof.
  split; [reflexivity|]. unfold url_query. cbv zeta.
  set (sp0 := searchParams_set "api_key" (apiKey w) []).
  set (sp := if negb (truthy (own_property "language" params))
             then searchParams_set "language" DEFAULT_LANGUAGE sp0 else sp0).
  assert (Hnd : NoDup sp.*1).
  { unfold sp. destruct (negb _); [apply searchParams_set_NoDup|];
      apply NoDup_singleton. }
  assert (Hapi : ("api_key", apiKey w) ∈ sp).
  { unfold sp. destruct (negb _).
    - apply searchParams_set_keeps; [done|]. by apply list_elem_of_singleton.
    - by apply list_elem_of_singleton. }
  split; [by apply fold_set_param_NoDup|].
  split; [apply fold_set_param_name; left; apply list_elem_of_fmap;
          by exists ("api_key", apiKey w)|].
  split.
  { apply fold_set_param_name. unfold sp.
    destruct (truthy (own_property "language" params)) eqn:Hl; cbn [negb].
    - right. by apply own_property_truthy.
    - left. apply searchParams_set_name. by left. }
  split.
  { intros k [Hin|Hin]%fold_set_param_name; [|by right; right].
    unfold sp in Hin. destruct (negb _).
    - apply searchParams_set_name in Hin as [->|Hin]; [by right; left|].
      left. by apply list_elem_of_singleton in Hin.
    - left. by apply list_elem_of_singleton in Hin. }
  split; [intros Hndp k x; by apply fold_set_param_value|].
  split; [intros Hall; by apply fold_set_param_keeps|].
  intros Hall. apply fold_set_param_keeps; [done|].
  unfold sp. rewrite (own_property_nullish _ _ Hall). cbn [negb].
  apply searchParams_set_here.
Qed.

End Url.

(** ** The favourites manager *)

Section FavouritesFacts.
Context `{RT : Runtime}.
Import Favourites.

Lemma load_spec w :
  load w = (Normal (VArr (stored_favourites (localStorage w))), log (EGetItem KEY) w).
Proof.
  unfold load, try_catch, bind, localStorage_getItem, stored_favourites. simpl.
  destruct (localStorage w !! KEY) as [raw|]; simpl; [|done].
  destruct (String.eqb raw ""); simpl; [done|].
  unfold JSON_parse_or_throw. destruct (JSON_parse raw) as [v|]; simpl; [|done].
  by destruct v.
Qed.

Lemma some_has_id_spec id l w : some_has_id id l w = (some_id id l, w).
Proof.
  induction l as [|m l IH]; [done|]. simpl. unfold bind, get_prop.
  destruct (nullish m); simpl; [done|].
  by destruct (strict_eq (prop m "id") id).
Qed.

Lemma filter_not_id_spec id l w : filter_not_id id l w = (filter_id id l, w).
Proof.
  induction l as [|m l IH]; [done|]. simpl. unfold bind, get_prop.
  destruct (nullish m); simpl; [done|]. rewrite IH.
  by destruct (filter_id id l).
Qed.

Lemma normalizeItem_spec item w :
  nullish item = false -> normalizeItem item w = (Normal (normalized item), w).
Proof. intros H. unfold normalizeItem, bind, get_prop. by rewrite H. Qed.

Lemma isFavourite_spec id w :
  isFavourite id w
  = (some_id id (stored_favourites (localStorage w)), log (EGetItem KEY) w).
Proof. unfold isFavourite, bind. by rewrite load_spec, some_has_id_spec. Qed.

Lemma save_spec next w :
  save next w =
    if setItem_allowed (localStorage w) KEY (JSON_stringify next)
    then (Normal tt,
          log (ESetItem KEY (JSON_stringify next))
            (with_storage (<[KEY := JSON_stringify next]> (localStorage w)) w))
    else (Throw QuotaExceededError, log (ESetItem KEY (JSON_stringify next)) w).
Proof. reflexivity. Qed.

Lemma addFavourite_spec item w :
  truthy item = true -> nullish (prop item "id") = false ->
  addFavourite item w =
    let w1 := log (EGetItem KEY) w in
    let next := with_favourite item (localStorage w) in
    match some_id (prop item "id") (stored_favourites (localStorage w)) with
    | Normal true => (Normal (VArr (stored_favourites (localStorage w))), w1)
    | Normal false =>
        if setItem_allowed (localStorage w) KEY (JSON_stringify next)
        then (Normal next,
              log (ESetItem KEY (JSON_stringify next))
                (with_storage (<[KEY := JSON_stringify next]> (localStorage w)) w1))
        else (Throw QuotaExceededError, log (ESetItem KEY (JSON_stringify next)) w1)
    | Throw e => (Throw e, w1)
    end.
Proof.
  intros Hitem Hid. unfold addFavourite. rewrite Hitem. simpl.
  unfold bind at 1, get_prop. rewrite (truthy_not_nullish _ Hitem). simpl. rewrite Hid.
  unfold bind at 1. rewrite load_spec.
  change (elements_of (VArr (stored_favourites (localStorage w))))
    with (stored_favourites (localStorage w)).
  unfold bind at 1. rewrite some_has_id_spec.
  destruct (some_id _ _) as [[|]|e]; [done| |done].
  unfold bind at 1. rewrite (normalizeItem_spec _ _ (truthy_not_nullish _ Hitem)).
  unfold bind. rewrite save_spec. simpl. unfold with_favourite.
  by destruct (setItem_allowed _ _ _).
Qed.

Lemma addFavourite_guard item w :
  truthy item = false \/ nullish (prop item "id") = true ->
  addFavourite item w = load w.
Proof.
  intros Hg. unfold addFavourite.
  destruct (truthy item) eqn:Hitem; simpl; [|done].
  destruct Hg as [?|Hid]; [done|].
  unfold bind, get_prop. rewrite (truthy_not_nullish _ Hitem). simpl. by rewrite Hid.
Qed.

Lemma removeFavourite_spec id w :
  removeFavourite id w =
    let w1 := log (EGetItem KEY) w in
    match filter_id id (stored_favourites (localStorage w)) with
    | Normal kept =>
        if setItem_allowed (localStorage w) KEY (JSON_stringify (VArr kept))
        then (Normal (VArr kept),
              log (ESetItem KEY (JSON_stringify (VArr kept)))
                (with_storage (<[KEY := JSON_stringify (VArr kept)]> (localStorage w)) w1))
        else (Throw QuotaExceededError,
              log (ESetItem KEY (JSON_stringify (VArr kept))) w1)
    | Throw e => (Throw e, w1)
    end.
Proof.
  unfold removeFavourite, bind at 1. rewrite load_spec.
  change (elements_of (VArr (stored_favourites (localStorage w))))
    with (stored_favourites (localStorage w)).
  unfold bind at 1. rewrite filter_not_id_spec.
  destruct (filter_id _ _) as [kept|e]; [|done].
  unfold bind. rewrite save_spec. simpl. by destruct (setItem_allowed _ _ _).
Qed.

Lemma stored_after_save st l :
  JSON_stringify (VArr l) <> "" ->
  JSON_parse (JSON_stringify (VArr l)) = Some (VArr l) ->
  stored_favourites (<[KEY := JSON_stringify (VArr l)]> st) = l.
Proof.
  intros Hne Hparse. unfold stored_favourites.
  by rewrite lookup_insert_eq, (eqb_empty_false _ Hne), Hparse.
Qed.

Lemma strict_eq_trans a b c :
  strict_eq a b = true -> strict_eq a c = true -> strict_eq b c = true.
Proof.
  destruct a, b, c; simpl; try done.
  - intros ->%Bool.eqb_prop ->%Bool.eqb_prop. apply Bool.eqb_reflx.
  - intros ->%Z.eqb_eq ->%Z.eqb_eq. apply Z.eqb_refl.
  - intros ->%String.eqb_eq ->%String.eqb_eq. apply String.eqb_refl.
Qed.

Lemma filter_id_removes id l kept :
  filter_id id l = Normal kept -> some_id id kept = Normal false.
Proof.
  revert kept. induction l as [|m l IH]; intros kept; simpl.
  - by intros [= <-].
  - destruct (nullish m) eqn:Hm; [done|].
    destruct (filter_id id l) as [rest'|e]; [|done].
    destruct (strict_eq (prop m "id") id) eqn:Heq; intros [= <-]; [by apply IH|].
    simpl. rewrite Hm, Heq. by apply IH.
Qed.

Lemma filter_id_keeps_others id id' l kept :
  strict_eq id' id = false ->
  filter_id id l = Normal kept -> some_id id' kept = some_id id' l.
Proof.
  intros Hne. revert kept. induction l as [|m l IH]; intros kept; simpl.
  - by intros [= <-].
  - destruct (nullish m) eqn:Hm; [done|].
    destruct (filter_id id l) as [rest'|e]; [|done].
    destruct (strict_eq (prop m "id") id) eqn:Heq; intros [= <-].
    + destruct (strict_eq (prop m "id") id') eqn:Heq'.
      * by rewrite (strict_eq_trans _ _ _ Heq' Heq) in Hne.
      * by apply IH.
    + simpl. rewrite Hm. destruct (strict_eq (prop m "id") id'); [done|]. by apply IH.
Qed.

(** X17 (load never throws).  In every state load performs one getItem,
    changes nothing and returns an array: the empty array when nothing is
    stored under the key, when the stored string is not JSON and when it
    is JSON for something other than an array; the stored array otherwise. *)
Theorem load_never_throws w :
  exists l,
    load w = (Normal (VArr l), log (EGetItem KEY) w)
    /\ (localStorage w !! KEY = None -> l = [])
    /\ (forall raw, localStorage w !! KEY = Some raw ->
                    JSON_parse raw = None -> l = [])
    /\ (forall raw v, localStorage w !! KEY = Some raw ->
                      JSON_parse raw = Some v -> Array_isArray v = false -> l = [])
    /\ (forall raw items, localStorage w !! KEY = Some raw -> raw <> "" ->
                          JSON_parse raw = Some (VArr items) -> l = items).
Proof.
  exists (stored_favourites (localStorage w)). split; [apply load_spec|].
  unfold stored_favourites. repeat split.
  - by intros ->.
  - intros raw -> ->. by destruct (String.eqb raw "").
  - intros raw v -> -> Hv. destruct (String.eqb raw ""); [done|]. by destruct v.
  - intros raw items -> Hne ->. by rewrite (eqb_empty_false _ Hne).
Qed.

(** X18 (adding twice is idempotent).  addFavourite(item) for an item
    whose id is already among the favourites returns the stored list as
    it is and writes nothing to localStorage. *)
Theorem addFavourite_existing_is_noop item w :
  truthy item = true -> nullish (prop item "id") = false ->
  result (isFavourite (prop item "id") w) = Normal true ->
  result (addFavourite item w) = result (getFavourites w)
  /\ localStorage (after (addFavourite item w)) = localStorage w
  /\ List.filter is_setItem (events_since w (after (addFavourite item w))) = [].
Proof.
  intros Hitem Hid Hfav. rewrite isFavourite_spec in Hfav. simpl in Hfav.
  rewrite (addFavourite_spec _ _ Hitem Hid). cbv zeta. rewrite Hfav.
  unfold getFavourites. rewrite load_spec. simpl.
  split; [done|]. split; [done|].
  by rewrite (events_since_app w _ [EGetItem KEY]).
Qed.

(** X19 (an added item is a favourite).  When addFavourite(item)
    returns for an item with an id that is a number, a string or a
    boolean, and the returned list survives the JSON round trip,
    isFavourite(item.id) is true afterwards and getFavourites returns the
    list addFavourite returned. *)
Theorem addFavourite_then_isFavourite item next w :
  truthy item = true -> nullish (prop item "id") = false ->
  strict_eq (prop item "id") (prop item "id") = true ->
  result (addFavourite item w) = Normal next ->
  JSON_stringify next <> "" ->
  JSON_parse (JSON_stringify next) = Some next ->
  result (isFavourite (prop item "id") (after (addFavourite item w))) = Normal true
  /\ result (getFavourites (after (addFavourite item w))) = Normal next.
Proof.
  intros Hitem Hid Hrefl Hres Hne Hparse.
  rewrite (addFavourite_spec _ _ Hitem Hid) in *. cbv zeta in *.
  unfold getFavourites. rewrite isFavourite_spec, load_spec.
  destruct (some_id (prop item "id") (stored_favourites (localStorage w)))
    as [[|]|e] eqn:Hsome; [| |done].
  - simpl in *. injection Hres as <-. by rewrite Hsome.
  - destruct (setItem_allowed _ _ _); [|done]. simpl in *. injection Hres as <-.
    unfold with_favourite in *. rewrite (stored_after_save _ _ Hne Hparse).
    simpl. by rewrite Hrefl.
Qed.

(** X20 (a removed id is no favourite).  When removeFavourite(id)
    returns and the returned list survives the JSON round trip,
    isFavourite(id) is false afterwards, getFavourites returns the list
    removeFavourite returned, and isFavourite answers as before for every
    id that is not strictly equal to the removed one. *)
Theorem removeFavourite_then_not_favourite id next w :
  result (removeFavourite id w) = Normal next ->
  JSON_stringify next <> "" ->
  JSON_parse (JSON_stringify next) = Some next ->
  result (isFavourite id (after (removeFavourite id w))) = Normal false
  /\ result (getFavourites (after (removeFavourite id w))) = Normal next
  /\ forall id', strict_eq id' id = false ->
       result (isFavourite id' (after (removeFavourite id w)))
       = result (isFavourite id' w).
Proof.
  intros Hres Hne Hparse. rewrite removeFavourite_spec in *. cbv zeta in *.
  unfold getFavourites.
  destruct (filter_id id (stored_favourites (localStorage w))) as [kept|e] eqn:Hf;
    [|done].
  destruct (setItem_allowed _ _ _); [|done]. simpl in Hres. injection Hres as <-.
  split; [|split].
  - rewrite isFavourite_spec. simpl. rewrite (stored_after_save _ _ Hne Hparse).
    by apply (filter_id_removes id _ _ Hf).
  - rewrite load_spec. simpl. by rewrite (stored_after_save _ _ Hne Hparse).
  - intros id' Hne'. rewrite !isFavourite_spec. simpl.
    rewrite (stored_after_save _ _ Hne Hparse).
    by apply (filter_id_keeps_others id id' _ _ Hne' Hf).
Qed.

(** X21 (a refused write reaches the caller).  Unlike the cache, the
    favourites manager does not catch storage errors: when localStorage
    refuses the new list, addFavourite throws the quota error and the
    stored favourites stay as they were. *)
Theorem favourites_write_failure_propagates item lst minimal w :
  truthy item = true -> nullish (prop item "id") = false ->
  result (isFavourite (prop item "id") w) = Normal false ->
  result (getFavourites w) = Normal lst ->
  result (normalizeItem item w) = Normal minimal ->
  setItem_allowed (localStorage w) KEY
    (JSON_stringify (VArr (minimal :: elements_of lst))) = false ->
  result (addFavourite item w) = Throw QuotaExceededError
  /\ localStorage (after (addFavourite item w)) = localStorage w.
Proof.
  intros Hitem Hid Hfav Hlst Hmin Hq.
  rewrite isFavourite_spec in Hfav. simpl in Hfav.
  unfold getFavourites in Hlst. rewrite load_spec in Hlst. injection Hlst as <-.
  rewrite (normalizeItem_spec _ _ (truthy_not_nullish _ Hitem)) in Hmin.
  injection Hmin as <-. simpl in Hq.
  rewrite (addFavourite_spec _ _ Hitem Hid). cbv zeta. rewrite Hfav.
  unfold with_favourite. by rewrite Hq.
Qed.

Lemma KEY_outside_namespace key : storage_key key <> KEY.
Proof. unfold storage_key, STORAGE_PREFIX, KEY. simpl. discriminate. Qed.

Lemma stored_favourites_ext (st st' : gmap string string) :
  st !! KEY = st' !! KEY -> stored_favourites st = stored_favourites st'.
Proof. intros H. unfold stored_favourites. by rewrite H. Qed.

Lemma addFavourite_frame item w :
  now (after (addFavourite item w)) = now w
  /\ memoryCache (after (addFavourite item w)) = memoryCache w
  /\ forall k, k <> KEY ->
       localStorage (after (addFavourite item w)) !! k = localStorage w !! k.
Proof.
  destruct (truthy item) eqn:Hitem;
    [destruct (nullish (prop item "id")) eqn:Hid|];
    [rewrite addFavourite_guard, load_spec by auto; done
    | |rewrite addFavourite_guard, load_spec by auto; done].
  rewrite (addFavourite_spec _ _ Hitem Hid). cbv zeta.
  destruct (some_id _ _) as [[|]|e]; [done| |done].
  destruct (setItem_allowed _ _ _); [|done]. simpl.
  repeat split. intros k Hne. by rewrite lookup_insert_ne.
Qed.

Lemma removeFavourite_frame id w :
  now (after (removeFavourite id w)) = now w
  /\ memoryCache (after (removeFavourite id w)) = memoryCache w
  /\ forall k, k <> KEY ->
       localStorage (after (removeFavourite id w)) !! k = localStorage w !! k.
Proof.
  rewrite removeFavourite_spec. cbv zeta.
  destruct (filter_id _ _) as [kept|e]; [|done].
  destruct (setItem_allowed _ _ _); [|done]. simpl.
  repeat split. intros k Hne. by rewrite lookup_insert_ne.
Qed.


(** X22 (the cache and the favourites do not interfere).  The favourites
    key lies outside the cache's localStorage prefix: no cache operation
    (lookup, write, deferred write, memory-only or full clear) changes
    what getFavourites returns, and adding or removing a favourite does
    not change what getFromCache returns for any key. *)
Theorem cache_and_favourites_do_not_interfere key data ttl memoryOnly item id w :
  result (getFavourites (after (getFromCache key w))) = result (getFavourites w)
  /\ result (getFavourites (after (setInCache key data ttl w)))
     = result (getFavourites w)
  /\ result (getFavourites
               (after (setInLocalStorage_callback (mkPending key data ttl) w)))
     = result (getFavourites w)
  /\ result (getFavourites (after (clearAllCache memoryOnly w)))
     = result (getFavourites w)
  /\ result (getFromCache key (after (addFavourite item w)))
     = result (getFromCache key w)
  /\ result (getFromCache key (after (removeFavourite id w)))
     = result (getFromCache key w).
Proof.
  unfold getFavourites. rewrite !load_spec, !getFromCache_result.
  cbn [result fst].
  assert (Hk : forall k, KEY <> storage_key k)
    by (intros k Heq; by apply (KEY_outside_namespace k)).
  split; [|split; [|split; [|split; [|split]]]].
  - do 2 f_equal. apply stored_favourites_ext. by apply getFromCache_keeps.
  - by rewrite setInCache_spec.
  - do 2 f_equal. apply stored_favourites_ext.
    by apply (callback_frame (mkPending key data ttl) w).
  - do 2 f_equal. apply stored_favourites_ext. rewrite clearAllCache_lookup.
    by rewrite andb_false_r.
  - f_equal. destruct (addFavourite_frame item w) as (-> & -> & Hst).
    apply cache_answer_ext; [done|]. apply Hst, KEY_outside_namespace.
  - f_equal. destruct (removeFavourite_frame id w) as (-> & -> & Hst).
    apply cache_answer_ext; [done|]. apply Hst, KEY_outside_namespace.
Qed.

End FavouritesFacts.

(** ** The properties on concrete worlds *)

Lemma freshness_witness :
  result (getFromCache (RT := Reference.browser) "movie:550"
            (after (setInCache "movie:550" (VStr "payload") (VNum 100)
                      (Reference.start 1000))))
  = Normal (VStr "payload").
Proof.
  apply (freshness (RT := Reference.browser) "movie:550" (VStr "payload") 100
           (Reference.start 1000)).
  - lia.
  - simpl. lia.
  - discriminate.
Defined.

(** C1 as stated fails for the payload null: with an older valid entry in
    the persistent tier, setInCache(key, null, 100) followed at once by
    getFromCache(key) returns the older payload, not null.  It also fails
    at the clock reading 0, where isCacheValid takes the timestamp for
    missing and the fresh entry is dropped. *)
Lemma freshness_counterexample :
  let r := result (getFromCache (RT := Reference.browser) "genres:movie"
                     (after (setInCache "genres:movie" VNull (VNum 100)
                               genres_persisted))) in
  let r0 := result (getFromCache (RT := Reference.browser) "movie:550"
                      (after (setInCache "movie:550" (VStr "payload") (VNum 100)
                                (Reference.start 0)))) in
  0 < 100 /\ r = Normal (VStr "old") /\ r <> Normal VNull /\ r0 = Normal VNull.
Proof. vm_compute. repeat split; congruence. Qed.



Lemma promotion_restarts_ttl_witness :
  result (getFromCache (RT := Reference.browser) "movie:550" reloaded)
  = Normal (VStr "payload")
  /\ memoryCache (after (getFromCache (RT := Reference.browser) "movie:550" reloaded))
       !! "movie:550" = Some (mkEntry (VStr "payload") (now reloaded) (VNum 100))
  /\ (result (isCacheValid (RT := Reference.browser)
                (mkEntry (VStr "payload") (now reloaded) (VNum 100))
                (with_now 1149
                   (after (getFromCache (RT := Reference.browser) "movie:550"
                             reloaded))))
      = Normal true <-> 1149 < now reloaded + 100).
Proof.
  destruct (promotion_restarts_ttl (RT := Reference.browser) "movie:550"
              (Reference.stringify (mkEntry (VStr "payload") 1000 (VNum 100)))
              (VStr "payload") 1000 100 reloaded) as (H1 & H2 & H3 & _).
  - vm_compute. reflexivity.
  - vm_compute. reflexivity.
  - vm_compute. discriminate.
  - vm_compute. reflexivity.
  - vm_compute. reflexivity.
  - discriminate.
  - vm_compute. discriminate.
  - split; [exact H1|]. split; [exact H2|]. exact (H3 1149).
Defined.

(** C3 as stated fails: the entry promoted at 1050 ms is still served by
    the memory tier at 1120 ms, when the persistent entry it was copied
    from (stamped 1000 ms, ttl 100) has already become stale. *)
Lemma promotion_counterexample :
  let w := advance 70
             (after (getFromCache (RT := Reference.browser) "movie:550" reloaded)) in
  now w = 1120
  /\ result (getFromMemoryCache (RT := Reference.browser) "movie:550" w)
     = Normal (VStr "payload")
  /\ result (getFromLocalStorage (RT := Reference.browser) "movie:550" w)
     = Normal VNull.
Proof. vm_compute. repeat split. Qed.

(** C4 as stated fails on the promotion path: the lookup that promotes the
    persisted entry calls localStorage.getItem twice. *)
Lemma read_cost_counterexample :
  events_since reloaded
    (after (getFromCache (RT := Reference.browser) "movie:550" reloaded))
  = [EGetItem "filmzimmer:tmdb:movie:550"; EGetItem "filmzimmer:tmdb:movie:550"]
  /\ ~ (reads (events_since reloaded
                 (after (getFromCache (RT := Reference.browser) "movie:550" reloaded)))
        <= 1)%nat.
Proof. vm_compute. split; [reflexivity | lia]. Qed.

Lemma failed_load_not_cached_witness :
  result (fetchWithCache_await (RT := Reference.browser) not_found "movie:0" "/movie/0"
            [] (VNum 86400000)
            [Tick 40; Timer; Store "genres:tv" (VStr "other") (VNum 100); Clear true]
            cleared_while_pending)
  = Throw (Error "[TMDB API Error] The resource you requested could not be found.")
  /\ result (getFromCache (RT := Reference.browser) "movie:0"
               (elapse (RT := Reference.browser) [Tick 1000; Timer; Lookup "movie:550"]
                  (after (fetchWithCache_await (RT := Reference.browser) not_found
                            "movie:0" "/movie/0" [] (VNum 86400000)
                            [Tick 40; Timer; Store "genres:tv" (VStr "other") (VNum 100);
                             Clear true]
                            cleared_while_pending))))
     = Normal VNull.
Proof.
  destruct (failed_load_not_cached (RT := Reference.browser) not_found "movie:0"
              "/movie/0" [] (VNum 86400000)
              "https://api.themoviedb.org/3/movie/0?api_key=k&language=en-US"
              (Error "[TMDB API Error] The resource you requested could not be found.")
              [Tick 40; Timer; Store "genres:tv" (VStr "other") (VNum 100); Clear true]
              cleared_while_pending) as (H1 & _ & _ & _ & _ & _ & H7).
  - vm_compute. reflexivity.
  - vm_compute. reflexivity.
  - vm_compute. reflexivity.
  - destruct H7 as [_ H8].
    + vm_compute. reflexivity.
    + vm_compute. reflexivity.
    + split; [exact H1|].
      apply (H8 [Tick 1000; Timer; Lookup "movie:550"]). vm_compute. reflexivity.
Defined.

(** C5 as stated fails when the key is written while the request is in
    flight.  First run: a payload for movie 550 was cached and the cache
    cleared at once, so the lookup misses while the deferred write is
    still queued; the write lands during the await, the request fails,
    and the lookup after the failed call returns the payload.  Second
    run: on an empty cache an overlapping call for the same key misses,
    issues its own request and stores its answer while the first call
    waits; the first call fails, and the lookup after it returns the
    payload of the other call. *)
Lemma failed_load_counterexample :
  let run :=
    fetchWithCache_await (RT := Reference.browser) not_found "movie:550" "/movie/550"
      [] (VNum 100000) [Tick 5; Timer] cleared_while_pending in
  let overlapped :=
    fetchWithCache_await (RT := Reference.browser) not_found "movie:550" "/movie/550"
      [] (VNum 100000)
      [Lookup "movie:550";
       Request "https://api.themoviedb.org/3/movie/550?api_key=k&language=en-US";
       Tick 20; Store "movie:550" (VStr "payload") (VNum 100000)]
      (Reference.start 1000) in
  result (getFromCache (RT := Reference.browser) "movie:550" cleared_while_pending)
  = Normal VNull
  /\ result run
     = Throw (Error "[TMDB API Error] The resource you requested could not be found.")
  /\ List.filter (writes_to (storage_key "movie:550"))
       (events_since cleared_while_pending (after run)) <> []
  /\ result (getFromCache (RT := Reference.browser) "movie:550" (after run))
     = Normal (VStr "payload")
  /\ result overlapped
     = Throw (Error "[TMDB API Error] The resource you requested could not be found.")
  /\ result (getFromCache (RT := Reference.browser) "movie:550" (after overlapped))
     = Normal (VStr "payload").
Proof. vm_compute. repeat split; congruence. Qed.

Lemma createCacheKey_injective_on_plain_witness :
  createCacheKey [VStr "movie"; VNum 550; VUndefined]
  <> createCacheKey [VStr "movie"; VNum 551; VNull].
Proof.
  intros Heq.
  destruct createCacheKey_injective_on_plain as [_ Hinj].
  apply (Hinj [VStr "movie"; VNum 550; VUndefined] [VStr "movie"; VNum 551; VNull])
    in Heq.
  - vm_compute in Heq. discriminate Heq.
  - vm_compute. reflexivity.
  - vm_compute. reflexivity.
Defined.

(** C6 as stated fails twice.  Season number 0 is skipped although it is
    neither undefined nor null, so the key of season 0 of series 1399 is
    the key of a list without a season number.  And the keys that
    searchMovies builds for the query alien:1 on page 2 and for the query
    alien on page 1 with year 2 are the same string. *)
Lemma createCacheKey_counterexample :
  createCacheKey [VStr "tv"; VNum 1399; VStr "season"; VNum 0]
  = createCacheKey [VStr "tv"; VNum 1399; VStr "season"]
  /\ createCacheKey [VStr "search"; VStr "movie"; VStr "alien:1"; VNum 2;
                     VUndefined; VUndefined]
     = createCacheKey [VStr "search"; VStr "movie"; VStr "alien"; VNum 1;
                       VNum 2; VUndefined].
Proof. vm_compute. split; reflexivity. Qed.

Lemma cache_failures_absorbed_witness :
  result (getFromCache (RT := Reference.full) "movie:550" corrupted)
  = result (getFromCache (RT := Reference.full) "movie:550"
              (with_storage (delete (storage_key "movie:550") (localStorage corrupted))
                 corrupted))
  /\ result (setInLocalStorage_callback (RT := Reference.full)
               (mkPending "movie:550" (VStr "payload") (VNum 100)) corrupted)
     = Normal tt.
Proof.
  destruct (cache_failures_absorbed (RT := Reference.full)) as (_ & H2 & _ & H4 & _).
  split.
  - apply (H2 "movie:550" "{oops" corrupted).
    + vm_compute. reflexivity.
    + vm_compute. reflexivity.
  - apply (H4 (mkPending "movie:550" (VStr "payload") (VNum 100)) corrupted).
    vm_compute. reflexivity.
Defined.

(** C9 fails on a response whose body is the JSON text null: the status is
    500, the body parses, and reading status_message off null throws a
    TypeError, so the rejection carries neither a server message nor the
    numeric status. *)
Lemma fetchFromApi_null_body :
  result (fetchFromApi (RT := Reference.browser)
            (fun _ => Answered (mkResponse 500 "null"))
            "https://api.themoviedb.org/3/movie/550?api_key=k"
            (Reference.start 1000))
  = Throw (TypeError "Cannot read properties of null").
Proof. vm_compute. reflexivity. Qed.



(** ** The further properties on concrete worlds *)

Lemma other_keys_unaffected_witness :
  result (getFromCache (RT := Reference.browser) "genres:movie"
            (after (setInCache "movie:550" (VStr "payload") (VNum 100)
                      genres_persisted)))
  = result (getFromCache (RT := Reference.browser) "genres:movie" genres_persisted)
  /\ result (getFromCache (RT := Reference.browser) "genres:movie" genres_persisted)
     = Normal (VStr "old").
Proof.
  split; [|vm_compute; reflexivity].
  apply (other_keys_unaffected (RT := Reference.browser) "movie:550" "genres:movie"
           (VStr "payload") (VNum 100) genres_persisted).
  discriminate.
Defined.

Lemma stale_stays_stale_witness :
  result (isCacheValid (RT := Reference.browser)
            (mkEntry (VStr "payload") 1000 (VNum 100))
            (with_now 1200 (Reference.start 1000)))
  = Normal false.
Proof.
  apply (stale_stays_stale (RT := Reference.browser)
           (mkEntry (VStr "payload") 1000 (VNum 100)) 1100 1200 (Reference.start 1000)).
  - lia.
  - vm_compute. reflexivity.
Defined.

Lemma non_positive_ttl_not_served_witness :
  result (getFromMemoryCache (RT := Reference.browser) "movie:550"
            (with_now 1000
               (after (setInCache "movie:550" (VStr "payload") (VNum 0)
                         (Reference.start 1000)))))
  = Normal VNull.
Proof.
  apply (non_positive_ttl_not_served (RT := Reference.browser) "movie:550"
           (VStr "payload") 0 1000 (Reference.start 1000)).
  - lia.
  - simpl. lia.
Defined.

Lemma last_writer_wins_witness :
  localStorage
    (run_timers (RT := Reference.browser) 2
       (after (setInCache "movie:550" (VStr "new") (VNum 200)
                 (after (setInCache "movie:550" (VStr "old") (VNum 100)
                           (Reference.start 1000))))))
    !! storage_key "movie:550"
  = Some (Reference.stringify (mkEntry (VStr "new") 1000 (VNum 200))).
Proof.
  apply (last_writer_wins (RT := Reference.browser) "movie:550"
           (VStr "old") (VNum 100) (VStr "new") (VNum 200) (Reference.start 1000)).
  - reflexivity.
  - vm_compute. reflexivity.
Defined.

Lemma promoted_entry_served_from_memory_witness :
  getFromCache (RT := Reference.browser) "movie:550"
    (after (getFromCache (RT := Reference.browser) "movie:550" reloaded))
  = (Normal (VStr "payload"),
     after (getFromCache (RT := Reference.browser) "movie:550" reloaded)).
Proof.
  apply (promoted_entry_served_from_memory (RT := Reference.browser) "movie:550"
           (Reference.stringify (mkEntry (VStr "payload") 1000 (VNum 100)))
           (VStr "payload") 1000 100 reloaded).
  - vm_compute. reflexivity.
  - vm_compute. reflexivity.
  - vm_compute. discriminate.
  - vm_compute. reflexivity.
  - vm_compute. reflexivity.
  - discriminate.
  - vm_compute. discriminate.
  - lia.
Defined.

Lemma hit_served_without_network_witness :
  fetchWithCache (RT := Reference.browser) not_found "movie:550" "/movie/550" []
    (VNum 100)
    (after (setInCache "movie:550" (VStr "payload") (VNum 100) (Reference.start 1000)))
  = getFromCache (RT := Reference.browser) "movie:550"
      (after (setInCache "movie:550" (VStr "payload") (VNum 100) (Reference.start 1000))).
Proof.
  apply (hit_served_without_network (RT := Reference.browser) not_found "movie:550"
           "/movie/550" [] (VNum 100) (VStr "payload")
           (after (setInCache "movie:550" (VStr "payload") (VNum 100)
                     (Reference.start 1000)))).
  - vm_compute. reflexivity.
  - discriminate.
Defined.

Lemma miss_answered_by_network_witness :
  result (fetchWithCache_await (RT := Reference.browser) genre_list "genres:movie"
            "/genre/movie/list" [] (VNum 604800000) [Tick 30; Timer]
            cleared_while_pending)
  = Normal (VObj [("genres", VArr [])])
  /\ memoryCache
       (after (fetchWithCache_await (RT := Reference.browser) genre_list "genres:movie"
                 "/genre/movie/list" [] (VNum 604800000) [Tick 30; Timer]
                 cleared_while_pending))
       !! "genres:movie"
     = Some (mkEntry (VObj [("genres", VArr [])]) 1030 (VNum 604800000)).
Proof.
  destruct (miss_answered_by_network (RT := Reference.browser) genre_list "genres:movie"
              "/genre/movie/list" [] (VNum 604800000)
              "https://api.themoviedb.org/3/genre/movie/list?api_key=k&language=en-US"
              [Tick 30; Timer] cleared_while_pending) as (H1 & _ & _ & _ & H5).
  - vm_compute. reflexivity.
  - vm_compute. reflexivity.
  - destruct (H5 (VObj [("genres", VArr [])])) as (Hm & _).
    + vm_compute. reflexivity.
    + split; [rewrite H1; vm_compute; reflexivity|].
      rewrite Hm. vm_compute. reflexivity.
Defined.

Lemma cache_hit_after_load_witness :
  result
    (fetchWithCache (RT := Reference.browser) not_found "genres:movie"
       "/genre/movie/list" [] (VNum 604800000)
       (advance 1000
          (run_timers (RT := Reference.browser) 1
             (after (fetchWithCache (RT := Reference.browser) genre_list "genres:movie"
                       "/genre/movie/list" [] (VNum 604800000)
                       (Reference.start 1000))))))
  = Normal (VObj [("genres", VArr [])]).
Proof.
  rewrite (cache_hit_after_load (RT := Reference.browser) genre_list not_found
             "genres:movie" "/genre/movie/list" "/genre/movie/list" [] [] 604800000
             (VNum 604800000) (VObj [("genres", VArr [])]) 1000 1
             (Reference.start 1000)).
  - reflexivity.
  - vm_compute. reflexivity.
  - vm_compute. reflexivity.
  - discriminate.
  - lia.
  - simpl. lia.
  - lia.
Defined.

Lemma expired_entry_never_served_witness :
  result (fetchWithCache (RT := Reference.browser) not_found "movie:550" "/movie/550"
            [] (VNum 100)
            (written_then_aged (RT := Reference.browser) "movie:550"
               (VStr "payload") 100 5 100 (Reference.start 1000)))
  = Throw (Error "[TMDB API Error] The resource you requested could not be found.").
Proof.
  rewrite (expired_entry_never_served (RT := Reference.browser) not_found "movie:550"
             "/movie/550" [] (VStr "payload") 100 (VNum 100) 5 100
             (built_url (RT := Reference.browser) "/movie/550" []
                (written_then_aged (RT := Reference.browser) "movie:550"
                   (VStr "payload") 100 5 100 (Reference.start 1000)))
             (Reference.start 1000)).
  - vm_compute. reflexivity.
  - reflexivity.
  - vm_compute. reflexivity.
  - vm_compute. discriminate.
  - vm_compute. reflexivity.
  - lia.
  - lia.
  - reflexivity.
Defined.

Lemma memory_only_clear_keeps_persistent_witness :
  result (getFromCache (RT := Reference.browser) "movie:550"
            (advance 50
               (after (clearAllCache true
                  (run_timer (RT := Reference.browser)
                     (advance 5
                        (after (setInCache "movie:550" (VStr "payload") (VNum 100)
                                  (Reference.start 1000)))))))))
  = Normal (VStr "payload").
Proof.
  apply (memory_only_clear_keeps_persistent (RT := Reference.browser) "movie:550"
           (VStr "payload") 100 5 50 (Reference.start 1000)).
  - reflexivity.
  - vm_compute. reflexivity.
  - vm_compute. discriminate.
  - vm_compute. reflexivity.
  - discriminate.
  - simpl. lia.
  - lia.
  - lia.
Defined.

Lemma pending_write_survives_clear_witness :
  result (getFromCache (RT := Reference.browser) "movie:550"
            (advance 50
               (run_timer (RT := Reference.browser)
                  (advance 5
                     (after (clearAllCache false
                               (after (setInCache "movie:550" (VStr "payload") (VNum 100)
                                         (Reference.start 1000)))))))))
  = Normal (VStr "payload").
Proof.
  apply (pending_write_survives_clear (RT := Reference.browser) "movie:550"
           (VStr "payload") 100 5 50 false (Reference.start 1000)).
  - reflexivity.
  - vm_compute. reflexivity.
  - vm_compute. discriminate.
  - vm_compute. reflexivity.
  - simpl. lia.
  - lia.
  - lia.
Defined.

Lemma credits_key_shared_witness :
  result
    (getMovieDetails (RT := Reference.browser) not_found (VNum 550)
       (VObj [("appendToResponse", VStr "credits")])
       (advance 1000
          (run_timers (RT := Reference.browser) 1
             (after (getMovieCredits (RT := Reference.browser) credits_answer (VNum 550)
                       (Reference.start 1000))))))
  = Normal (VObj [("id", VNum 550); ("cast", VArr []); ("crew", VArr [])]).
Proof.
  rewrite (credits_key_shared (RT := Reference.browser) credits_answer not_found
             (VNum 550) (VObj [("id", VNum 550); ("cast", VArr []); ("crew", VArr [])])
             1000 1 (Reference.start 1000)).
  - reflexivity.
  - vm_compute. reflexivity.
  - vm_compute. reflexivity.
  - discriminate.
  - simpl. lia.
  - reflexivity.
Defined.

Lemma addFavourite_existing_is_noop_witness :
  result (Favourites.addFavourite (RT := Reference.browser) film one_favourite)
  = result (Favourites.getFavourites (RT := Reference.browser) one_favourite)
  /\ localStorage (after (Favourites.addFavourite (RT := Reference.browser) film
                            one_favourite))
     = localStorage one_favourite.
Proof.
  destruct (addFavourite_existing_is_noop (RT := Reference.browser) film one_favourite)
    as (H1 & H2 & _).
  - reflexivity.
  - reflexivity.
  - vm_compute. reflexivity.
  - split; [exact H1|exact H2].
Defined.

Lemma addFavourite_then_isFavourite_witness :
  result (Favourites.isFavourite (RT := Reference.browser) (VNum 550)
            (after (Favourites.addFavourite (RT := Reference.browser) film
                      (Reference.start 1000))))
  = Normal true.
Proof.
  apply (addFavourite_then_isFavourite (RT := Reference.browser) film
           (VArr [normalized film]) (Reference.start 1000)).
  - reflexivity.
  - reflexivity.
  - reflexivity.
  - vm_compute. reflexivity.
  - vm_compute. discriminate.
  - vm_compute. reflexivity.
Defined.

Lemma removeFavourite_then_not_favourite_witness :
  result (Favourites.isFavourite (RT := Reference.browser) (VNum 550)
            (after (Favourites.removeFavourite (RT := Reference.browser) (VNum 550)
                      one_favourite)))
  = Normal false.
Proof.
  apply (removeFavourite_then_not_favourite (RT := Reference.browser) (VNum 550)
           (VArr []) one_favourite).
  - vm_compute. reflexivity.
  - vm_compute. discriminate.
  - vm_compute. reflexivity.
Defined.

Lemma favourites_write_failure_propagates_witness :
  result (Favourites.addFavourite (RT := Reference.full) film (Reference.start 1000))
  = Throw QuotaExceededError.
Proof.
  apply (favourites_write_failure_propagates (RT := Reference.full) film (VArr [])
           (normalized film) (Reference.start 1000)).
  - reflexivity.
  - reflexivity.
  - vm_compute. reflexivity.
  - vm_compute. reflexivity.
  - vm_compute. reflexivity.
  - vm_compute. reflexivity.
Defined.
